(** * MagicstompFrenzy: SysEx framing, checksum and outbound coalescing

    A shallow embedding of [magicstompfrenzy_reference/mainwindow.cpp]
    ([MainWindow::calcChecksum], [MainWindow::midiEvent],
    [MainWindow::parameterChanged]) and of the patch layout constants of
    [magicstompfrenzy_reference/magicstomp.h], followed by the properties
    the protocol description states about them. *)

From Stdlib Require Import ZArith Lia Bool.
From Stdlib Require Import Strings.Byte Strings.Ascii Strings.String.
From Stdlib Require Import Numbers.DecimalString.
From stdpp Require Import base tactics option list list_numbers gmap strings.

Local Open Scope Z_scope.

(** ** Bytes and the C++ [char] type

    A [QByteArray] is a sequence of octets.  The source reads them through
    [char], which is a signed 8-bit type on the platforms the program is
    built for: [schar] is the value such a read yields, [uchar] the value
    after [static_cast<unsigned char>], and [to_char] the octet stored by a
    conversion of an [int] to [char] (wrap-around modulo 256). *)

Module Char.

Definition uchar (c : byte) : Z := Z.of_N (Byte.to_N c).

Definition schar (c : byte) : Z :=
  let u := uchar c in if u <? 128 then u else u - 256.

Definition to_char (z : Z) : byte :=
  match Byte.of_N (Z.to_N (z mod 256)) with
  | Some c => c
  | None => x00
  end.

(** The value held by a [char] variable after an [int] is assigned to it. *)
Definition wrap_char (z : Z) : Z := (z + 128) mod 256 - 128.

End Char.
Import Char.

(** ** The parts of [QByteArray] the source uses *)

Module QByteArray.

Abbreviation t := (list byte).

Definition size (a : t) : Z := Z.of_nat (length a).

Definition isEmpty (a : t) : bool :=
  match a with [] => true | _ => false end.

(** [a.at(i)] and [*(a.constData() + i)].  Inside the array this is the
    octet stored there.  One past the end [constData] holds a terminating
    zero; reads further out are undefined in the source and are given the
    same zero here. *)
Definition at_ (a : t) (i : Z) : byte :=
  if i <? 0 then x00 else default x00 (a !! Z.to_nat i).

(** [a.left(len)]: the whole array when [len >= size], nothing when
    [len < 0]. *)
Definition left (len : Z) (a : t) : t := take (Z.to_nat len) a.

(** [a.mid(pos, len)] for [0 <= pos] and [0 <= len]. *)
Definition mid (pos len : Z) (a : t) : t :=
  take (Z.to_nat len) (drop (Z.to_nat pos) a).

Fixpoint eqb (a b : t) : bool :=
  match a, b with
  | [], [] => true
  | x :: a', y :: b' => Byte.eqb x y && eqb a' b'
  | _, _ => false
  end.

(** [a.startsWith(p)] *)
Fixpoint startsWith (a p : t) {struct p} : bool :=
  match p, a with
  | [], _ => true
  | y :: p', x :: a' => Byte.eqb x y && startsWith a' p'
  | _ :: _, [] => false
  end.

(** [a.remove(pos, len)] *)
Definition remove (pos len : Z) (a : t) : t :=
  if (len <=? 0) || (pos <? 0) || (size a <=? pos) then a
  else take (Z.to_nat pos) a ++ drop (Z.to_nat (pos + len)) a.

(** [a.insert(pos, b)]: a position past the end pads with spaces. *)
Definition insert (pos : Z) (b a : t) : t :=
  if (pos <? 0) || isEmpty b then a
  else if size a <? pos
       then a ++ replicate (Z.to_nat (pos - size a)) x20 ++ b
       else take (Z.to_nat pos) a ++ b ++ drop (Z.to_nat pos) a.

(** [a.replace(pos, len, after)], which Qt performs as [remove(pos, len)]
    followed by [insert(pos, after)]. *)
Definition replace (pos len : Z) (after a : t) : t :=
  insert pos after (remove pos len a).

End QByteArray.

Abbreviation QByteArray := (list byte).

(** ** Constants of [magicstomp.h] and [mainwindow.cpp] *)

Definition numOfPatches : Z := 99.
Definition PatchNameLength : Z := 12.

Definition PatchType : Z := 0.
Definition Control1 : Z := 2.
Definition Control2 : Z := 4.
Definition Control3 : Z := 6.
Definition PatchName : Z := 16.
Definition PatchNameLast : Z := PatchName + PatchNameLength.
Definition PatchCommonLength : Z := 0x20.
Definition PatchEffectLength : Z := 0x7F.
Definition PatchTotalLength : Z := PatchCommonLength + PatchEffectLength.

Definition sysExBulkHeaderLength : Z := 8.
Definition sysExBulkHeader : QByteArray :=
  [xf0; x43; x7d; x30; x55; x42; x39; x39].
Definition dumpRequestHeader : QByteArray :=
  [xf0; x43; x7d; x50; x55; x42; x30; x01].

Definition parameterSendHeaderLength : Z := 6.
Definition sysExParameterSendHeader : QByteArray :=
  [xf0; x43; x7d; x40; x55; x42].

(** ** [MainWindow::calcChecksum]

    [data] is the memory [data] points to and [dataLength] the number of
    octets the loop visits.  [checkSum] is a [char]: every [+=] wraps, and
    so does the conversion of the returned [int]. *)

Definition calcChecksum (data : QByteArray) (dataLength : Z) : Z :=
  let checkSum :=
    foldl (fun checkSum c => wrap_char (checkSum + schar c)) 0
          (take (Z.to_nat dataLength) data) in
  wrap_char (Z.land (- checkSum) 0x7f).

(** The checksum as the protocol description words it: the sum of the
    payload octets read as signed 8-bit values, negated and masked to seven
    bits, with no wrap-around anywhere. *)
Definition signed_sum (p : QByteArray) : Z :=
  foldr (fun c acc => schar c + acc) 0 p.

Definition checksum_spec (p : QByteArray) : Z :=
  Z.land (- signed_sum p) 0x7F.

(** ** Program state

    The declarations of [MainWindow], [MidiEvent] and the widgets are not
    among the excerpts; the records below hold exactly the members the three
    functions touch. *)

(** [UserEventTypes]: the SysEx event type and every other one. *)
Inductive UserEventTypes := MidiSysEx | MidiCommon.

Definition isMidiSysEx (t : UserEventTypes) : bool :=
  match t with MidiSysEx => true | MidiCommon => false end.

(** A [MidiEvent]: a [QEvent] (type, accepted flag) carrying SysEx data. *)
Record MidiEvent := mkMidiEvent {
  evType : UserEventTypes;
  sysExData : QByteArray;
  isAccepted : bool
}.

Definition accept (ev : MidiEvent) : MidiEvent :=
  mkMidiEvent (evType ev) (sysExData ev) true.

(** [new MidiEvent(type)] with its data filled in: a fresh [QEvent] has its
    accepted flag set. *)
Definition newMidiEvent (t : UserEventTypes) (d : QByteArray) : MidiEvent :=
  mkMidiEvent t d true.

(** Lines written through [qDebug]. *)
Inductive DebugMsg :=
| DbgParameterChanged (offset length : Z)
| DbgRemovedItem
| DbgHex (a : QByteArray)
| DbgChecksumError
| DbgUnexpectedData.

(** The [QWidget *paramEditWidget] argument: its address and whether it has
    input focus. *)
Record QWidget := mkQWidget {
  widgetPtr : Z;
  hasFocus : bool
}.

(** [widgetWithVal]: only the [dspinBox] pointer is read. *)
Record widgetWithVal := mkWidgetWithVal {
  dspinBox : Z;
  ccVal : Z
}.

Record QTimer := mkQTimer {
  isActive : bool;
  interval : Z
}.

(** [ArrayDataEditWidget::DataArray()] returns a pointer to a byte array
    the widget does not own.  It either points into the patch store (and
    then sees every write to that patch) or at some other array. *)
Inductive ArrayDataEditWidget :=
| DataInPatchStore (first second : Z)
| DataElsewhere (a : QByteArray).

(** The label text set by [patchNameLabel->setText]: the patch number,
    a space, and the name bytes. *)
Record PatchNameLabel := mkPatchNameLabel {
  labelNumber : string;
  labelName : QByteArray
}.

Record MainWindow := mkMainWindow {
  (** the widget at index 1 of the central splitter; [None] is [nullptr] *)
  editWidget : option ArrayDataEditWidget;
  (** the Patch Store, indexed [newPatchDataList[first][second]] *)
  newPatchDataList : gmap (Z * Z) QByteArray;
  currentPatchEdited : Z * Z;
  (** calls [patchListModelList[first]->patchUpdated(second)] made so far *)
  patchUpdated : list (Z * Z);
  patchNameLabel : PatchNameLabel;
  midiOutQueue : list MidiEvent;
  midiOutTimer : QTimer;
  tmpArray : QByteArray;
  ccToWidgetMap : list (Z * widgetWithVal);
  isInTransmissionState : bool;
  isInImportState : bool;
  (** what has been written to the debug stream, oldest line first *)
  debugOut : list DebugMsg
}.

Definition qDebug (m : DebugMsg) (w : MainWindow) : MainWindow :=
  mkMainWindow (editWidget w) (newPatchDataList w) (currentPatchEdited w)
    (patchUpdated w) (patchNameLabel w) (midiOutQueue w) (midiOutTimer w)
    (tmpArray w) (ccToWidgetMap w) (isInTransmissionState w)
    (isInImportState w) (debugOut w ++ [m]).

(** ** [MainWindow::midiEvent]

    The function returns nothing; the model returns, next to the event and
    the window it leaves behind, the place where control left it. *)

Inductive MidiEventExit :=
| ExitNotSysEx       (* the event is not a SysEx event *)
| ExitTooShort       (* line 139 *)
| ExitWrongHeader    (* line 142 *)
| ExitNoTerminator   (* line 147 *)
| ExitChecksumError  (* line 153 *)
| ExitUnexpectedData (* line 159 *)
| ExitProcessed.     (* line 162, "Process incoming SysEx data" *)

Section MidiIn.

(** The code that processes an accepted frame is elided in the excerpt
    (line 162); it is a parameter of the model. *)
Variable processIncomingSysEx : QByteArray -> MainWindow -> MainWindow.

Definition midiEvent (ev : MidiEvent) (w : MainWindow)
  : MidiEventExit * MidiEvent * MainWindow :=
  if negb (isMidiSysEx (evType ev)) then (ExitNotSysEx, ev, w) else
  let inData := sysExData ev in
  if QByteArray.size inData <? 13 then (ExitTooShort, ev, w) else
  if negb (QByteArray.eqb (QByteArray.left sysExBulkHeaderLength inData)
                          sysExBulkHeader)
  then (ExitWrongHeader, ev, w) else
  let ev := accept ev in
  if negb (uchar (QByteArray.at_ inData (QByteArray.size inData - 1)) =? 0xF7)
  then (ExitNoTerminator, ev, w) else
  let checkSum :=
    calcChecksum (drop (Z.to_nat sysExBulkHeaderLength) inData)
                 (QByteArray.size inData - sysExBulkHeaderLength - 2) in
  if negb (checkSum =? schar (QByteArray.at_ inData (QByteArray.size inData - 1 - 1)))
  then (ExitChecksumError, ev, qDebug DbgChecksumError w) else
  if negb (isInTransmissionState w) && negb (isInImportState w)
  then (ExitUnexpectedData, ev, qDebug DbgUnexpectedData w) else
  (ExitProcessed, ev, processIncomingSysEx inData w).

End MidiIn.

Definition exitOf (r : MidiEventExit * MidiEvent * MainWindow) : MidiEventExit :=
  r.1.1.
Definition windowOf (r : MidiEventExit * MidiEvent * MainWindow) : MainWindow :=
  r.2.
Definition eventOf (r : MidiEventExit * MidiEvent * MainWindow) : MidiEvent :=
  r.1.2.

(** A frame has passed the length, header, terminator and checksum checks
    exactly when control reaches the transfer-state test of line 156. *)
Definition passedValidation (e : MidiEventExit) : bool :=
  match e with
  | ExitUnexpectedData | ExitProcessed => true
  | _ => false
  end.

(** *** Bulk frames as the protocol description words them *)

(** [header ++ payload ++ [checksum] ++ [F7]] *)
Definition bulkFrame (payload : QByteArray) : QByteArray :=
  sysExBulkHeader ++ payload
    ++ [to_char (calcChecksum payload (QByteArray.size payload))] ++ [xf7].

(** The octets strictly between the 8-byte header and the checksum byte. *)
Definition payloadOf (f : QByteArray) : QByteArray :=
  take (length f - 10)%nat (drop 8 f).

Definition validBulkFrame (f : QByteArray) : Prop :=
  13 <= QByteArray.size f
  /\ take 8 f = sysExBulkHeader
  /\ f !! (length f - 1)%nat = Some xf7
  /\ f !! (length f - 2)%nat
     = Some (to_char (calcChecksum (payloadOf f) (QByteArray.size (payloadOf f)))).

(** ** [MainWindow::parameterChanged] *)

(** *** Member updates *)

Definition set_patchUpdated (v : list (Z * Z)) (w : MainWindow) : MainWindow :=
  mkMainWindow (editWidget w) (newPatchDataList w) (currentPatchEdited w)
    v (patchNameLabel w) (midiOutQueue w) (midiOutTimer w)
    (tmpArray w) (ccToWidgetMap w) (isInTransmissionState w)
    (isInImportState w) (debugOut w).

Definition set_patchNameLabel (v : PatchNameLabel) (w : MainWindow) : MainWindow :=
  mkMainWindow (editWidget w) (newPatchDataList w) (currentPatchEdited w)
    (patchUpdated w) v (midiOutQueue w) (midiOutTimer w)
    (tmpArray w) (ccToWidgetMap w) (isInTransmissionState w)
    (isInImportState w) (debugOut w).

Definition set_midiOutQueue (v : list MidiEvent) (w : MainWindow) : MainWindow :=
  mkMainWindow (editWidget w) (newPatchDataList w) (currentPatchEdited w)
    (patchUpdated w) (patchNameLabel w) v (midiOutTimer w)
    (tmpArray w) (ccToWidgetMap w) (isInTransmissionState w)
    (isInImportState w) (debugOut w).

Definition set_midiOutTimer (v : QTimer) (w : MainWindow) : MainWindow :=
  mkMainWindow (editWidget w) (newPatchDataList w) (currentPatchEdited w)
    (patchUpdated w) (patchNameLabel w) (midiOutQueue w) v
    (tmpArray w) (ccToWidgetMap w) (isInTransmissionState w)
    (isInImportState w) (debugOut w).

Definition set_ccToWidgetMap (v : list (Z * widgetWithVal)) (w : MainWindow) : MainWindow :=
  mkMainWindow (editWidget w) (newPatchDataList w) (currentPatchEdited w)
    (patchUpdated w) (patchNameLabel w) (midiOutQueue w) (midiOutTimer w)
    (tmpArray w) v (isInTransmissionState w)
    (isInImportState w) (debugOut w).

(** The patch [newPatchDataList[first][second]] refers to. *)
Definition patchAt (w : MainWindow) (k : Z * Z) : QByteArray :=
  default [] (newPatchDataList w !! k).

(** [newPatchDataList[first][second].replace(pos, len, tmpArray);
    tmpArray.clear();] *)
Definition commitTmpArray (pos len : Z) (w : MainWindow) : MainWindow :=
  let k := currentPatchEdited w in
  mkMainWindow (editWidget w)
    (<[k := QByteArray.replace pos len (tmpArray w) (patchAt w k)]> (newPatchDataList w))
    (currentPatchEdited w)
    (patchUpdated w) (patchNameLabel w) (midiOutQueue w) (midiOutTimer w)
    [] (ccToWidgetMap w) (isInTransmissionState w)
    (isInImportState w) (debugOut w).

(** [editWidget->DataArray()], dereferenced. *)
Definition DataArray (w : MainWindow) (e : ArrayDataEditWidget) : QByteArray :=
  match e with
  | DataInPatchStore first second => patchAt w (first, second)
  | DataElsewhere a => a
  end.

(** *** Lines 30-36: the name branch *)

(** [QString::number(n)] *)
Definition QString_number (n : Z) : string :=
  NilZero.string_of_int (Z.to_int n).

(** [s.rightJustified(width, fill)] *)
Definition rightJustified (width : nat) (fill : Ascii.ascii) (s : string) : string :=
  String.append
    (String.string_of_list_ascii (replicate (width - String.length s) fill)) s.

Definition nameBranch (w : MainWindow) : MainWindow :=
  let '(first, second) := currentPatchEdited w in
  let w := set_patchUpdated (patchUpdated w ++ [(first, second)]) w in
  let dataArrRef := patchAt w (first, second) in
  set_patchNameLabel
    (mkPatchNameLabel (rightJustified 2 "0"%char (QString_number (second + 1)))
                      (QByteArray.mid PatchName PatchNameLength dataArrRef))
    w.

(** *** Lines 38-64: the parameter-send frame *)

Definition parameterSendFrame (offset length : Z) (data : QByteArray) : QByteArray :=
  let reqArr := QByteArray.left parameterSendHeaderLength sysExParameterSendHeader in
  let reqArr := reqArr ++ [to_char 0x20] in
  let reqArr :=
    if offset <? PatchCommonLength
    then (reqArr ++ [to_char 0x00]) ++ [to_char offset]
    else (reqArr ++ [to_char 0x01]) ++ [to_char (offset - PatchCommonLength)] in
  let reqArr :=
    reqArr ++ ((fun i => QByteArray.at_ data (offset + i)) <$> seqZ 0 length) in
  reqArr ++ [to_char 0xF7].

(** *** Lines 66-83: removal of superseded queue entries *)

Definition supersededBy (reqArr : QByteArray) (e : MidiEvent) : bool :=
  QByteArray.startsWith (sysExData e)
    (QByteArray.left (parameterSendHeaderLength + 3) reqArr).

(** The [while] loop over the queue: the entries kept, and one debug line
    per entry erased. *)
Fixpoint eraseSuperseded (reqArr : QByteArray) (q : list MidiEvent)
  : list MidiEvent * list DebugMsg :=
  match q with
  | [] => ([], [])
  | e :: q' =>
      let '(kept, dbg) := eraseSuperseded reqArr q' in
      if supersededBy reqArr e then (kept, DbgRemovedItem :: dbg)
      else (e :: kept, dbg)
  end.

Definition qDebugs (ms : list DebugMsg) (w : MainWindow) : MainWindow :=
  foldl (fun w m => qDebug m w) w ms.

(** *** Lines 88-93: enqueue and lazy start of the pacing timer *)

Definition startTimerIfIdle (w : MainWindow) : MainWindow :=
  if negb (isActive (midiOutTimer w))
  then set_midiOutTimer (mkQTimer true 10) w
  else w.

(** A [for (i = from; i < to; i++)] loop whose body may fail to return. *)
Fixpoint forEach {S : Type} (body : Z -> S -> option S) (ixs : list Z) (s : S)
  : option S :=
  match ixs with
  | [] => Some s
  | i :: ixs' =>
      match body i s with
      | Some s' => forEach body ixs' s'
      | None => None
      end
  end.

Definition forLoop {S : Type} (from to : Z) (body : Z -> S -> option S) (s : S)
  : option S :=
  forEach body (seqZ from (to - from)) s.

Section ParameterOut.

(** Two things the function depends on are outside the excerpts: the Qt
    version the program is compiled against (line 85), and
    [buildCCToWidgetMap] (line 114), which recomputes [ccToWidgetMap] from
    the window. *)
Variable QT_VERSION : Z.
Variable buildCCToWidgetMap : MainWindow -> list (Z * widgetWithVal).

(** Lines 66-93. *)
Definition coalesceAndEnqueue (midiev : MidiEvent) (w : MainWindow) : MainWindow :=
  let reqArr := sysExData midiev in
  let '(kept, dbg) := eraseSuperseded reqArr (midiOutQueue w) in
  let w := qDebugs dbg (set_midiOutQueue kept w) in
  let w := if 0x050900 <=? QT_VERSION then qDebug (DbgHex reqArr) w else w in
  let w := set_midiOutQueue (midiOutQueue w ++ [midiev]) w in
  startTimerIfIdle w.

(** Lines 103-107. *)
Definition applyTmpArray (offset length : Z) (paramEditWidget : QWidget)
    (w : MainWindow) : MainWindow :=
  if negb (hasFocus paramEditWidget) && negb (QByteArray.isEmpty (tmpArray w))
  then commitTmpArray offset length w
  else w.

(** Lines 109-118. *)
Definition refreshCCMap (paramEditWidget : QWidget) (w : MainWindow) : MainWindow :=
  if existsb (fun kv => hasFocus paramEditWidget
                        && (dspinBox kv.2 =? widgetPtr paramEditWidget))
             (ccToWidgetMap w)
  then set_ccToWidgetMap (buildCCToWidgetMap w) w
  else w.

(** The function calls itself; [fuel] bounds the nesting of calls, and
    [None] means the bound was too small for the call to return. *)
Fixpoint parameterChanged (fuel : nat) (offset length : Z)
    (paramEditWidget : QWidget) (w : MainWindow) : option MainWindow :=
  match fuel with
  | O => None
  | S fuel' =>
      let w := qDebug (DbgParameterChanged offset length) w in
      match editWidget w with
      | None => Some w
      | Some editW =>
          let isName := offset =? PatchName in
          let length := if isName then 1 else length in
          let w := if isName then nameBranch w else w in
          let reqArr := parameterSendFrame offset length (DataArray w editW) in
          let midiev := newMidiEvent MidiSysEx reqArr in
          let w := coalesceAndEnqueue midiev w in
          match
            (if isName
             then forLoop (PatchName + 1) PatchNameLast
                    (fun i => parameterChanged fuel' i 1 paramEditWidget) w
             else Some w)
          with
          | None => None
          | Some w =>
              let w := applyTmpArray offset length paramEditWidget w in
              Some (refreshCCMap paramEditWidget w)
          end
      end
  end.

(** A series of top-level calls, each allowed one level of nested calls. *)
Definition runCalls (calls : list (Z * Z * QWidget)) (w : MainWindow)
  : option MainWindow :=
  foldl (fun r c =>
           match r with
           | Some w => parameterChanged 2 c.1.1 c.1.2 c.2 w
           | None => None
           end) (Some w) calls.

End ParameterOut.

(** *** Reading the queue *)

(** The nine octets a parameter-send frame for [(section, address)] begins
    with: header, [0x20], section, address. *)
Definition keyPrefix (section address : byte) : QByteArray :=
  sysExParameterSendHeader ++ [x20; section; address].

Definition matchesKey (section address : byte) (e : MidiEvent) : bool :=
  QByteArray.startsWith (sysExData e) (keyPrefix section address).

(** At most one queued frame for any (section, address). *)
Definition coalesced (q : list MidiEvent) : Prop :=
  forall section address,
    (length (List.filter (matchesKey section address) q) <= 1)%nat.

(** Section and address a patch offset is sent under. *)
Definition sectionOf (offset : Z) : byte :=
  if offset <? PatchCommonLength then x00 else x01.
Definition addressOf (offset : Z) : byte :=
  if offset <? PatchCommonLength then to_char offset
  else to_char (offset - PatchCommonLength).

(** The value octets of a parameter-send frame: what lies between the
    nine-octet prefix and the closing [F7]. *)
Definition valueBytes (frame : QByteArray) : QByteArray :=
  take (length frame - 10)%nat (drop 9 frame).

(** The calls and the frames a stretch of debug output records. *)
Definition callsIn (dbg : list DebugMsg) : list (Z * Z) :=
  omap (fun m => match m with
                 | DbgParameterChanged o l => Some (o, l)
                 | _ => None
                 end) dbg.

(** A parameter-send frame laid out as in the wire-format table. *)
Definition paramFrame (k : byte * byte) (vals : QByteArray) : QByteArray :=
  keyPrefix k.1 k.2 ++ vals ++ [xf7].

(** What lines 66-88 do to the queue when [midiev] is enqueued. *)
Definition coalesceStep (q : list MidiEvent) (midiev : MidiEvent) : list MidiEvent :=
  List.filter (fun e => negb (supersededBy (sysExData midiev) e)) q ++ [midiev].

Definition sysExEvent (frame : QByteArray) : MidiEvent :=
  newMidiEvent MidiSysEx frame.

(** The effect of one or more calls with the same widget, from window [w]
    to window [w']: [logged] are the calls the debug stream shows, [frames]
    the frames enqueued, in order. *)
Definition CallSummary (paramEditWidget : QWidget) (logged : list (Z * Z))
    (frames : list QByteArray) (w w' : MainWindow) : Prop :=
  editWidget w' = editWidget w
  /\ midiOutQueue w' = foldl coalesceStep (midiOutQueue w) (sysExEvent <$> frames)
  /\ (exists delta, debugOut w' = debugOut w ++ delta /\ callsIn delta = logged)
  /\ (hasFocus paramEditWidget = true \/ tmpArray w = [] ->
      newPatchDataList w' = newPatchDataList w /\ tmpArray w' = tmpArray w)
  /\ isInTransmissionState w' = isInTransmissionState w
  /\ isInImportState w' = isInImportState w.

(** Two windows that differ at most in the queue, the timer, the debug
    stream, the name label, the update notifications and the CC map. *)
Definition sameStore (w w' : MainWindow) : Prop :=
  editWidget w' = editWidget w
  /\ newPatchDataList w' = newPatchDataList w
  /\ currentPatchEdited w' = currentPatchEdited w
  /\ tmpArray w' = tmpArray w
  /\ isInTransmissionState w' = isInTransmissionState w
  /\ isInImportState w' = isInImportState w.

(** One frame with a single value octet for each offset of a list. *)
Definition singleByteFrames (ixs : list Z) (frames : list QByteArray) : Prop :=
  Forall2 (fun i f => exists v, f = paramFrame (sectionOf i, addressOf i) [v]) ixs frames.

(** Frames for the keys [keys], one each, in that order. *)
Definition framesFor (keys : list (byte * byte)) (frames : list QByteArray) : Prop :=
  Forall2 (fun k f => exists vals, f = paramFrame k vals) keys frames.

Definition matchesAnyKey (keys : list (byte * byte)) (e : MidiEvent) : bool :=
  existsb (fun k => matchesKey k.1 k.2 e) keys.

(** The keys of the twelve name octets: section 0, addresses 16 to 27. *)
Definition nameKeys : list (byte * byte) :=
  (fun o => (x00, to_char o)) <$> seqZ PatchName PatchNameLength.

(** Single-octet frames for the common-section offsets [ixs], carrying
    the octets [vs]. *)
Definition commonFrames (ixs : list Z) (vs : list byte) : list QByteArray :=
  zip_with (fun o v => paramFrame (x00, to_char o) [v]) ixs vs.

(** A queue entry that is a parameter-send frame: its data begins with
    [F0 43 7D 40 55 42 20]. *)
Definition isParameterSend (e : MidiEvent) : bool :=
  QByteArray.startsWith (sysExData e) (sysExParameterSendHeader ++ [x20]).

(** The timer after the first enqueue: started with a period of 10 ms if it
    was idle, left alone if it was running. *)
Definition timerAfterEnqueue (t : QTimer) : QTimer :=
  if isActive t then t else mkQTimer true 10.

(** The offsets the name loop of lines 97-100 visits. *)
Definition nameTail : list Z := seqZ (PatchName + 1) (PatchNameLast - (PatchName + 1)).

(** ** Sample data *)

Module Sample.

(** A 159-octet patch whose octet at offset [i] is [i]. *)
Definition patch : QByteArray := to_char <$> seqZ 0 PatchTotalLength.

(** An idle window editing patch (0, 3); the edit widget shows that patch. *)
Definition window : MainWindow :=
  mkMainWindow (Some (DataInPatchStore 0 3)) {[ (0, 3) := patch ]} (0, 3) []
    (mkPatchNameLabel EmptyString []) [] (mkQTimer false 0) [] [] false false [].

(** The same window with a pending value and two frames already queued,
    for offsets 17 and 5 in that order. *)
Definition busyWindow : MainWindow :=
  mkMainWindow (Some (DataInPatchStore 0 3)) {[ (0, 3) := patch ]} (0, 3) []
    (mkPatchNameLabel EmptyString [])
    [sysExEvent (parameterSendFrame 17 1 patch);
     sysExEvent (parameterSendFrame 5 1 patch)]
    (mkQTimer true 10) [x41] [] false false [].

(** The same idle window while a dump response is awaited. *)
Definition awaitingWindow : MainWindow :=
  mkMainWindow (Some (DataInPatchStore 0 3)) {[ (0, 3) := patch ]} (0, 3) []
    (mkPatchNameLabel EmptyString []) [] (mkQTimer false 0) [] [] true false [].

(** A window whose central splitter holds no edit widget ([widget(1)] is
    null), with a pending value and nothing queued. *)
Definition bareWindow : MainWindow :=
  mkMainWindow None {[ (0, 3) := patch ]} (0, 3) []
    (mkPatchNameLabel EmptyString []) [] (mkQTimer false 0) [x41] [] false false [].

Definition focused : QWidget := mkQWidget 1 true.
Definition unfocused : QWidget := mkQWidget 1 false.

Definition qtVersion : Z := 0x050F02.
Definition buildCC (w : MainWindow) : list (Z * widgetWithVal) := ccToWidgetMap w.
Definition process (inData : QByteArray) (w : MainWindow) : MainWindow := w.

(** A payload of the length the description tests with, and a short one. *)
Definition payload151 : QByteArray := to_char <$> seqZ 0 151.
Definition payload3 : QByteArray := [x01; x02; x03].

Definition inbound (frame : QByteArray) : MidiEvent :=
  mkMidiEvent MidiSysEx frame false.

End Sample.

(** ** [MidiPortModel] ([midiportmodel.cpp]), as built on Linux

    The file is compiled for three systems; the model follows the
    [Q_OS_LINUX] branches, where [connectionsCont] is a set of port ids and
    the connection itself is an ALSA subscription.  The class declaration
    is not among the sources; the record holds the members the functions
    use. *)

(** A [MidiClientPortId]: ALSA client number and port number. *)
Abbreviation MidiClientPortId := (Z * Z)%type.

Definition clientId (id : MidiClientPortId) : Z := id.1.
Definition portId (id : MidiClientPortId) : Z := id.2.

Inductive PortDirection := ReadablePorts | WritablePorts.

(** What is asked of the sequencer: [snd_seq_subscribe_port] and
    [snd_seq_unsubscribe_port], with the sender and destination addresses
    ([client], [port]) of the subscription. *)
Inductive AlsaRequest :=
| SubscribePort (sender dest : Z * Z)
| UnsubscribePort (sender dest : Z * Z).

Record MidiPortModel := mkMidiPortModel {
  direction : PortDirection;
  portList : list (MidiClientPortId * string);
  connectionsCont : gset MidiClientPortId;
  (** rows for which [dataChanged] was emitted, oldest first *)
  dataChangedRows : list Z;
  (** requests made of the sequencer, oldest first *)
  alsaRequests : list AlsaRequest
}.

Inductive ItemDataRole :=
| DisplayRole
| ClientPortIdRole
| isConnectedRole
| OtherRole (role : Z).

Inductive QVariant :=
| VInvalid
| VString (s : string)
| VClientPortId (id : MidiClientPortId)
| VBool (b : bool).

(** [connectionsCont.contains(id)] *)
Definition contains (id : MidiClientPortId) (m : MidiPortModel) : bool :=
  bool_decide (id ∈ connectionsCont m).

(** [portList.at(row)]; the source asserts that the row exists. *)
Definition portAt (m : MidiPortModel) (row : Z) : option (MidiClientPortId * string) :=
  if row <? 0 then None else portList m !! Z.to_nat row.

(** [MidiPortModel::data]; [None] stands for the failed assertion of
    [portList.at] on a row that does not exist. *)
Definition data (row : Z) (role : ItemDataRole) (m : MidiPortModel) : option QVariant :=
  match role with
  | DisplayRole => p ← portAt m row; Some (VString p.2)
  | ClientPortIdRole => p ← portAt m row; Some (VClientPortId p.1)
  | isConnectedRole => p ← portAt m row; Some (VBool (contains p.1 m))
  | OtherRole _ => Some VInvalid
  end.

Definition rowCount (m : MidiPortModel) : Z := Z.of_nat (length (portList m)).

(** The loop of [emitPortChanged]: the first row from [row] on whose port
    is [id], or the row past the end. *)
Fixpoint findRow (id : MidiClientPortId) (l : list (MidiClientPortId * string))
    (row : Z) : Z :=
  match l with
  | [] => row
  | p :: l' => if bool_decide (p.1 = id) then row else findRow id l' (row + 1)
  end.

Definition emitPortChanged (id : MidiClientPortId) (m : MidiPortModel) : MidiPortModel :=
  let row := findRow id (portList m) 0 in
  if row <? Z.of_nat (length (portList m))
  then mkMidiPortModel (direction m) (portList m) (connectionsCont m)
         (dataChangedRows m ++ [row]) (alsaRequests m)
  else m.

Definition set_connectionsCont (c : gset MidiClientPortId) (m : MidiPortModel)
  : MidiPortModel :=
  mkMidiPortModel (direction m) (portList m) c (dataChangedRows m) (alsaRequests m).

(** [static_cast<unsigned char>] of a client or port number. *)
Definition alsaAddr (id : MidiClientPortId) : Z * Z :=
  (clientId id mod 256, portId id mod 256).

Section Sequencer.

(** The sequencer's answer to a request, given the requests made before. *)
Variable alsa : list AlsaRequest -> AlsaRequest -> Z.

(** [return snd_seq_subscribe_port(handle, subs) == 0] and its
    counterpart. *)
Definition askSequencer (r : AlsaRequest) (m : MidiPortModel) : bool * MidiPortModel :=
  (alsa (alsaRequests m) r =? 0,
   mkMidiPortModel (direction m) (portList m) (connectionsCont m)
     (dataChangedRows m) (alsaRequests m ++ [r])).

Definition connectPorts (srcId destId : MidiClientPortId) (connected : bool)
    (m : MidiPortModel) : bool * MidiPortModel :=
  let sender := alsaAddr srcId in
  let dest := alsaAddr destId in
  if connected then
    match direction m with
    | ReadablePorts =>
        if contains srcId m then (true, m)
        else askSequencer (SubscribePort sender dest)
               (emitPortChanged srcId
                  (set_connectionsCont ({[srcId]} ∪ connectionsCont m) m))
    | WritablePorts =>
        if contains destId m then (true, m)
        else askSequencer (SubscribePort sender dest)
               (emitPortChanged destId
                  (set_connectionsCont ({[destId]} ∪ connectionsCont m) m))
    end
  else
    match direction m with
    | ReadablePorts =>
        if negb (contains srcId m) then (true, m)
        else askSequencer (UnsubscribePort sender dest)
               (emitPortChanged srcId
                  (set_connectionsCont (connectionsCont m ∖ {[srcId]}) m))
    | WritablePorts =>
        if negb (contains destId m) then (true, m)
        else askSequencer (UnsubscribePort sender dest)
               (emitPortChanged destId
                  (set_connectionsCont (connectionsCont m ∖ {[destId]}) m))
    end.

(** The loop of both [connectPortsByName]: the port of the first row with
    the name. *)
Fixpoint firstNamed (name : string) (l : list (MidiClientPortId * string))
  : option MidiClientPortId :=
  match l with
  | [] => None
  | p :: l' => if String.eqb p.2 name then Some p.1 else firstNamed name l'
  end.

(** [connectPortsByName(const QString &srcName, MidiClientPortId destId, bool)] *)
Definition connectPortsBySrcName (srcName : string) (destId : MidiClientPortId)
    (connected : bool) (m : MidiPortModel) : bool * MidiPortModel :=
  match firstNamed srcName (portList m) with
  | Some srcId => connectPorts srcId destId connected m
  | None => (false, m)
  end.

(** [connectPortsByName(MidiClientPortId srcId, const QString &destName, bool)] *)
Definition connectPortsByDestName (srcId : MidiClientPortId) (destName : string)
    (connected : bool) (m : MidiPortModel) : bool * MidiPortModel :=
  match firstNamed destName (portList m) with
  | Some destId => connectPorts srcId destId connected m
  | None => (false, m)
  end.

End Sequencer.

Definition currentConnectionsNameList (m : MidiPortModel) : list string :=
  (fun p => p.2) <$> List.filter (fun p => contains p.1 m) (portList m).

(** The port [connectPorts] acts on: the source for a model of readable
    ports, the destination for one of writable ports. *)
Definition ownPort (m : MidiPortModel) (srcId destId : MidiClientPortId)
  : MidiClientPortId :=
  match direction m with
  | ReadablePorts => srcId
  | WritablePorts => destId
  end.

(** ** [MidiSender] ([midisender.cpp]) *)

(** [QString("%1").arg(v, 2, 16, QChar('0')).toUpper()] for an octet [v]:
    two upper-case hexadecimal digits. *)
Definition hexDigit (n : Z) : ascii :=
  match n with
  | 0 => "0" | 1 => "1" | 2 => "2" | 3 => "3" | 4 => "4" | 5 => "5"
  | 6 => "6" | 7 => "7" | 8 => "8" | 9 => "9" | 10 => "A" | 11 => "B"
  | 12 => "C" | 13 => "D" | 14 => "E" | _ => "F"
  end%char.

Definition byteHex (c : byte) : string :=
  String (hexDigit (uchar c / 16)) (String (hexDigit (uchar c mod 16)) EmptyString).

(** Lines 48-55: the octets in hexadecimal, a space between two of them. *)
Fixpoint hexString (a : QByteArray) : string :=
  match a with
  | [] => EmptyString
  | c :: rest =>
      String.append (byteHex c)
        (String.append (match rest with [] => EmptyString | _ => " "%string end)
                       (hexString rest))
  end.

Definition newline : string := String "010"%char EmptyString.

(** Lines 58-72: the log line. *)
Definition logMessage (timestamp : string) (a : QByteArray) (paramName : string)
    (offset length : Z) : string :=
  let msg := String.append timestamp
               (String.append " SYSEX OUT len=" (QString_number (QByteArray.size a))) in
  let msg :=
    if String.eqb paramName EmptyString then msg
    else
      let msg := String.append msg (String.append " | PARAM: " paramName) in
      if 0 <=? offset
      then
        let msg := String.append msg (String.append " (offset=" (QString_number offset)) in
        let msg := if 0 <? length
                   then String.append msg (String.append ", len=" (QString_number length))
                   else msg in
        String.append msg ")"
      else msg in
  String.append msg (String.append "  " (String.append (hexString a) newline)).

(** What [MidiSender] writes and sends. *)
Record MidiSender := mkMidiSender {
  (** lines written to the console *)
  console : list string;
  (** lines appended to [sysex_debug.log] *)
  logFile : list string;
  (** data handed to [snd_seq_event_output] *)
  sequencerOutput : list QByteArray;
  (** lines written through [qDebug] *)
  senderDebug : list string
}.

(** What the surroundings decide during one call: the time, whether the
    log file can be opened, and the results of the two sequencer calls. *)
Record SenderEnv := mkSenderEnv {
  now : string;
  logFileOpens : bool;
  eventOutputResult : Z;
  drainOutputResult : Z
}.

Definition hexDump (env : SenderEnv) (a : QByteArray) (paramName : string)
    (offset length : Z) (s : MidiSender) : MidiSender :=
  if QByteArray.isEmpty a then s
  else
    let msg := logMessage (now env) a paramName offset length in
    mkMidiSender (console s ++ [msg])
      (if logFileOpens env then logFile s ++ [msg] else logFile s)
      (sequencerOutput s) (senderDebug s).

(** The event handed to [MidiSender::event]: a [MidiEvent] or some other
    [QEvent], for which the [dynamic_cast] yields null. *)
Inductive QEvent :=
| AMidiEvent (me : MidiEvent)
| OtherEvent.

Section SenderDefaults.

(** [event] calls [hexDump] with the data only; the default values of the
    other three arguments are in the class declaration, which is not among
    the sources. *)
Variable defaultParamName : string.
Variable defaultOffset defaultLength : Z.

Definition senderEvent (env : SenderEnv) (e : QEvent) (s : MidiSender)
  : bool * QEvent * MidiSender :=
  match e with
  | AMidiEvent me =>
      if isMidiSysEx (evType me) then
        let s := hexDump env (sysExData me) defaultParamName defaultOffset
                   defaultLength s in
        let s := mkMidiSender (console s) (logFile s)
                   (sequencerOutput s ++ [sysExData me]) (senderDebug s) in
        let s := if eventOutputResult env <? 0
                 then mkMidiSender (console s) (logFile s) (sequencerOutput s)
                        (senderDebug s ++ ["Error at snd_seq_event_output"%string])
                 else s in
        let s := if drainOutputResult env <? 0
                 then mkMidiSender (console s) (logFile s) (sequencerOutput s)
                        (senderDebug s ++ ["Error at snd_seq_drain_output"%string])
                 else s in
        (true, AMidiEvent (accept me), s)
      else (true, e, s)
  | OtherEvent => (true, e, s)
  end.

End SenderDefaults.

(** ** [PreferencesDialog::createParaCCSpinBox] ([preferencesdialog.cpp]) *)

(** A [QSpinBox]: its range, its value and its object name.  A new one has
    the range 0 to 99 and the value 0; [setValue] and the range setters keep
    the value inside the range. *)
Record QSpinBox := mkQSpinBox {
  sbMinimum : Z;
  sbMaximum : Z;
  sbValue : Z;
  sbObjectName : string
}.

Definition newQSpinBox : QSpinBox := mkQSpinBox 0 99 0 EmptyString.

Definition bound (lo hi v : Z) : Z := Z.max lo (Z.min hi v).

Definition setMaximum (hi : Z) (sb : QSpinBox) : QSpinBox :=
  let lo := Z.min (sbMinimum sb) hi in
  mkQSpinBox lo hi (bound lo hi (sbValue sb)) (sbObjectName sb).

Definition setValue (v : Z) (sb : QSpinBox) : QSpinBox :=
  mkQSpinBox (sbMinimum sb) (sbMaximum sb) (bound (sbMinimum sb) (sbMaximum sb) v)
    (sbObjectName sb).

Definition setObjectName (name : string) (sb : QSpinBox) : QSpinBox :=
  mkQSpinBox (sbMinimum sb) (sbMaximum sb) (sbValue sb) name.

(** [paraToCCMap] is a [QMap<QString, int>]; [find] is the lookup. *)
Definition createParaCCSpinBox (paraToCCMap : gmap string Z) (name : string)
  : QSpinBox :=
  let spinbox := newQSpinBox in
  let spinbox := setMaximum 127 spinbox in
  let spinbox := setObjectName name spinbox in
  match paraToCCMap !! name with
  | Some v => setValue (Z.land v 0x7F) spinbox
  | None => spinbox
  end.

(** ** Sample ports *)

Module PortSample.

Definition ports : list (MidiClientPortId * string) :=
  [((20, 0), "UB99 MIDI 1"%string); ((24, 0), "Keyboard"%string);
   ((28, 1), "UB99 MIDI 1"%string)].

(** A model of readable ports with the keyboard connected. *)
Definition inputs : MidiPortModel :=
  mkMidiPortModel ReadablePorts ports {[ (24, 0) ]} [] [].

(** A sequencer that refuses every request. *)
Definition refusing (before : list AlsaRequest) (r : AlsaRequest) : Z := -1.

(** A sequencer that grants every request. *)
Definition granting (before : list AlsaRequest) (r : AlsaRequest) : Z := 0.

Definition env : SenderEnv := mkSenderEnv "[2024-01-01 00:00:00]" false (-1) (-1).

Definition sender : MidiSender := mkMidiSender [] [] [] [].

End PortSample.

(** * Properties *)

(** ** Octets and [char] values *)

Section CharFacts.

Lemma uchar_range c : 0 <= uchar c < 256.
Proof.
  unfold uchar. pose proof (Byte.to_N_bounded c). lia.
Qed.

Lemma schar_range c : -128 <= schar c < 128.
Proof.
  unfold schar. pose proof (uchar_range c).
  destruct (Z.ltb_spec (uchar c) 128); lia.
Qed.

Lemma schar_mod c : schar c mod 256 = uchar c.
Proof.
  unfold schar. pose proof (uchar_range c).
  destruct (Z.ltb_spec (uchar c) 128).
  - apply Z.mod_small; lia.
  - replace (uchar c - 256) with (uchar c + (-1) * 256) by lia.
    rewrite Z.mod_add by lia. apply Z.mod_small; lia.
Qed.

Lemma to_char_uchar c : to_char (uchar c) = c.
Proof.
  unfold to_char. pose proof (uchar_range c).
  rewrite Z.mod_small by lia. unfold uchar.
  rewrite N2Z.id, Byte.of_to_N. reflexivity.
Qed.

Lemma uchar_to_char z : uchar (to_char z) = z mod 256.
Proof.
  unfold to_char, uchar.
  pose proof (Z.mod_pos_bound z 256 ltac:(lia)) as Hb.
  destruct (Byte.of_N (Z.to_N (z mod 256))) as [c|] eqn:E.
  - apply Byte.to_of_N in E. rewrite E. lia.
  - apply Byte.of_N_None_iff in E. lia.
Qed.

Lemma uchar_inj c d : uchar c = uchar d -> c = d.
Proof.
  intros H. rewrite <- (to_char_uchar c), <- (to_char_uchar d). now rewrite H.
Qed.

Lemma to_char_schar c : to_char (schar c) = c.
Proof.
  apply uchar_inj. rewrite uchar_to_char, schar_mod. reflexivity.
Qed.

Lemma schar_to_char_small z : 0 <= z < 128 -> schar (to_char z) = z.
Proof.
  intros H. unfold schar. rewrite uchar_to_char, Z.mod_small by lia.
  destruct (Z.ltb_spec z 128); lia.
Qed.

Lemma wrap_char_range z : -128 <= wrap_char z < 128.
Proof.
  unfold wrap_char. pose proof (Z.mod_pos_bound (z + 128) 256 ltac:(lia)). lia.
Qed.

Lemma wrap_char_small z : -128 <= z < 128 -> wrap_char z = z.
Proof.
  intros H. unfold wrap_char. rewrite Z.mod_small; lia.
Qed.

Lemma wrap_char_mod z : wrap_char z mod 256 = z mod 256.
Proof.
  unfold wrap_char.
  replace ((z + 128) mod 256 - 128) with ((z + 128) mod 256 + (-128)) by lia.
  rewrite Zplus_mod_idemp_l. f_equal. lia.
Qed.

Lemma byte_eqb_eq (c d : byte) : Byte.eqb c d = true <-> c = d.
Proof.
  split; [apply Byte.byte_dec_bl | apply Byte.byte_dec_lb].
Qed.

End CharFacts.

(** ** [QByteArray] comparisons *)

Lemma QByteArray_eqb_eq (a b : QByteArray) : QByteArray.eqb a b = true <-> a = b.
Proof.
  revert b. induction a as [|x a IH]; intros [|y b]; simpl; try (split; congruence).
  rewrite andb_true_iff, byte_eqb_eq, IH. split.
  - intros [-> ->]. reflexivity.
  - intros [= -> ->]. auto.
Qed.

Lemma startsWith_app (p r : QByteArray) : QByteArray.startsWith (p ++ r) p = true.
Proof.
  induction p as [|x p IH]; simpl; [reflexivity|].
  rewrite IH, andb_true_r. apply byte_eqb_eq. reflexivity.
Qed.

Lemma startsWith_take (a p : QByteArray) :
  QByteArray.startsWith a p = true <-> take (length p) a = p.
Proof.
  revert a. induction p as [|y p IH]; intros a; simpl.
  - rewrite take_0. tauto.
  - destruct a as [|x a]; simpl; [split; congruence|].
    rewrite andb_true_iff, byte_eqb_eq, IH. split.
    + intros [-> ->]. reflexivity.
    + intros [= -> ->]. auto.
Qed.

(** ** The checksum *)

Lemma land_7f z : Z.land z 0x7f = z mod 128.
Proof.
  change 0x7f with (Z.ones 7). rewrite Z.land_ones by lia. reflexivity.
Qed.

Lemma checksum_loop_mod (p : QByteArray) acc :
  foldl (fun checkSum c => wrap_char (checkSum + schar c)) acc p mod 256
  = (acc + signed_sum p) mod 256.
Proof.
  revert acc. induction p as [|c p IH]; intros acc; simpl.
  - f_equal. lia.
  - rewrite IH. rewrite <- Zplus_mod_idemp_l, wrap_char_mod, Zplus_mod_idemp_l.
    f_equal. lia.
Qed.

Lemma neg_mod_128_of_mod_256 a b : a mod 256 = b mod 256 -> (- a) mod 128 = (- b) mod 128.
Proof.
  intros H.
  assert (Hd : exists k, a = b + 256 * k).
  { exists (a / 256 - b / 256).
    pose proof (Z.div_mod a 256 ltac:(lia)). pose proof (Z.div_mod b 256 ltac:(lia)). lia. }
  destruct Hd as [k ->].
  replace (- (b + 256 * k)) with (- b + (- 2 * k) * 128) by lia.
  apply Z.mod_add. lia.
Qed.

Lemma calcChecksum_take (data : QByteArray) n :
  calcChecksum data n
  = calcChecksum (take (Z.to_nat n) data) (QByteArray.size (take (Z.to_nat n) data)).
Proof.
  unfold calcChecksum, QByteArray.size.
  rewrite Nat2Z.id, firstn_all. reflexivity.
Qed.

Lemma calcChecksum_range (data : QByteArray) n : 0 <= calcChecksum data n <= 127.
Proof.
  unfold calcChecksum. rewrite land_7f.
  set (s := foldl _ _ _).
  pose proof (Z.mod_pos_bound (- s) 128 ltac:(lia)).
  rewrite wrap_char_small; lia.
Qed.

Lemma calcChecksum_spec (p : QByteArray) :
  calcChecksum p (QByteArray.size p) = checksum_spec p.
Proof.
  unfold calcChecksum, checksum_spec, QByteArray.size.
  rewrite Nat2Z.id, firstn_all. change 0x7F with 0x7f. rewrite !land_7f.
  set (s := foldl _ _ _).
  pose proof (Z.mod_pos_bound (- s) 128 ltac:(lia)).
  rewrite wrap_char_small by lia.
  apply neg_mod_128_of_mod_256. subst s. rewrite checksum_loop_mod. f_equal.
Qed.

(** ** Inbound validation *)

Lemma at_lookup (f : QByteArray) i :
  0 <= i < QByteArray.size f -> f !! Z.to_nat i = Some (QByteArray.at_ f i).
Proof.
  unfold QByteArray.size, QByteArray.at_. intros H.
  destruct (Z.ltb_spec i 0); [lia|].
  destruct (f !! Z.to_nat i) eqn:E; [reflexivity|].
  apply lookup_ge_None in E. lia.
Qed.

Lemma uchar_is_F7 c : (uchar c =? 0xF7) = true <-> c = xf7.
Proof.
  rewrite Z.eqb_eq. split.
  - intros H. apply uchar_inj. rewrite H. reflexivity.
  - intros ->. reflexivity.
Qed.

Lemma checksum_byte_eq cs c :
  0 <= cs <= 127 -> (cs =? schar c) = true <-> c = to_char cs.
Proof.
  intros H. rewrite Z.eqb_eq. split.
  - intros ->. symmetry. apply to_char_schar.
  - intros ->. symmetry. apply schar_to_char_small. lia.
Qed.

Lemma payload_checksum (f : QByteArray) :
  calcChecksum (drop (Z.to_nat sysExBulkHeaderLength) f)
               (QByteArray.size f - sysExBulkHeaderLength - 2)
  = calcChecksum (payloadOf f) (QByteArray.size (payloadOf f)).
Proof.
  rewrite calcChecksum_take. unfold payloadOf, sysExBulkHeaderLength, QByteArray.size.
  replace (Z.to_nat (Z.of_nat (length f) - 8 - 2)) with (length f - 10)%nat by lia.
  reflexivity.
Qed.

Section Validation.

Variable processIncomingSysEx : QByteArray -> MainWindow -> MainWindow.

Local Notation "'midiEvent''" := (midiEvent processIncomingSysEx).

(** The four checks of [midiEvent], one by one, against the description's
    notion of a valid frame. *)
Lemma midiEvent_passes_iff ev w :
  evType ev = MidiSysEx ->
  passedValidation (exitOf (midiEvent' ev w)) = true <-> validBulkFrame (sysExData ev).
Proof.
  intros Hty. unfold midiEvent, validBulkFrame, exitOf. rewrite Hty. simpl negb. cbv iota.
  set (f := sysExData ev).
  destruct (Z.ltb_spec (QByteArray.size f) 13) as [Hlen|Hlen]; simpl.
  { split; [discriminate | intros [? _]; lia]. }
  destruct (QByteArray.eqb (QByteArray.left sysExBulkHeaderLength f) sysExBulkHeader) eqn:Hh; simpl.
  2:{ split; [discriminate|]. intros (_ & Hhd & _).
      apply QByteArray_eqb_eq in Hhd. unfold QByteArray.left, sysExBulkHeaderLength in Hh.
      change (Z.to_nat 8) with 8%nat in Hh. congruence. }
  apply QByteArray_eqb_eq in Hh. change (take 8 f = sysExBulkHeader) in Hh.
  assert (Hl1 : f !! (length f - 1)%nat = Some (QByteArray.at_ f (QByteArray.size f - 1))).
  { rewrite <- at_lookup by lia. f_equal. unfold QByteArray.size. lia. }
  assert (Hl2 : f !! (length f - 2)%nat = Some (QByteArray.at_ f (QByteArray.size f - 1 - 1))).
  { rewrite <- at_lookup by lia. f_equal. unfold QByteArray.size. lia. }
  rewrite Hl1, Hl2, payload_checksum.
  set (c1 := QByteArray.at_ f (QByteArray.size f - 1)).
  set (c2 := QByteArray.at_ f (QByteArray.size f - 1 - 1)).
  set (cs := calcChecksum _ _).
  pose proof (calcChecksum_range (payloadOf f) (QByteArray.size (payloadOf f))) as Hcs.
  fold cs in Hcs.
  destruct (uchar c1 =? 0xF7) eqn:Ht; simpl.
  2:{ split; [discriminate|]. intros (_ & _ & [= Hc] & _).
      apply uchar_is_F7 in Hc. congruence. }
  apply uchar_is_F7 in Ht.
  destruct (cs =? schar c2) eqn:Hc; simpl.
  2:{ split; [discriminate|]. intros (_ & _ & _ & [= Hc2]).
      apply (checksum_byte_eq cs c2 Hcs) in Hc2. congruence. }
  apply (checksum_byte_eq cs c2 Hcs) in Hc.
  split; [intros _ | destruct (_ && _); reflexivity].
  subst c1 c2. rewrite Ht, Hc. auto.
Qed.

(** A frame that is rejected leaves the window as it was, up to the line
    written to the debug stream. *)
Lemma midiEvent_rejected ev w :
  passedValidation (exitOf (midiEvent' ev w)) = false ->
  windowOf (midiEvent' ev w) = w
  \/ windowOf (midiEvent' ev w) = qDebug DbgChecksumError w.
Proof.
  unfold midiEvent, exitOf, windowOf.
  repeat (match goal with |- context [if ?b then _ else _] => destruct b end;
          simpl; auto); discriminate.
Qed.

Lemma midiEvent_exit_cases ev w :
  passedValidation (exitOf (midiEvent' ev w)) = true ->
  exitOf (midiEvent' ev w)
  = if negb (isInTransmissionState w) && negb (isInImportState w)
    then ExitUnexpectedData else ExitProcessed.
Proof.
  unfold midiEvent, exitOf.
  repeat (match goal with |- context [if ?b then _ else _] => destruct b end;
          simpl; auto); discriminate.
Qed.

Lemma midiEvent_unexpected_window ev w :
  exitOf (midiEvent' ev w) = ExitUnexpectedData ->
  windowOf (midiEvent' ev w) = qDebug DbgUnexpectedData w.
Proof.
  unfold midiEvent, exitOf, windowOf.
  repeat (match goal with |- context [if ?b then _ else _] => destruct b end;
          simpl; auto); discriminate.
Qed.

End Validation.

Lemma bulkFrame_length (p : QByteArray) :
  length (bulkFrame p) = (length p + 10)%nat.
Proof.
  unfold bulkFrame. rewrite !length_app. simpl. lia.
Qed.

Lemma bulkFrame_payload (p : QByteArray) : payloadOf (bulkFrame p) = p.
Proof.
  unfold payloadOf. rewrite bulkFrame_length. unfold bulkFrame.
  change (drop 8 (sysExBulkHeader ++ ?r)) with r.
  replace (length p + 10 - 10)%nat with (length p) by lia.
  rewrite take_app_length. reflexivity.
Qed.

Lemma lookup_last_two {A} (l : list A) a b :
  (l ++ [a; b]) !! length l = Some a /\ (l ++ [a; b]) !! S (length l) = Some b.
Proof.
  induction l as [|x l IH]; simpl; auto.
Qed.

Lemma bulkFrame_valid (p : QByteArray) :
  3 <= QByteArray.size p -> validBulkFrame (bulkFrame p).
Proof.
  intros H. unfold validBulkFrame. rewrite bulkFrame_payload, bulkFrame_length.
  unfold QByteArray.size in *. rewrite bulkFrame_length.
  split; [lia|]. split; [reflexivity|].
  unfold bulkFrame.
  set (c := to_char _).
  destruct (lookup_last_two (sysExBulkHeader ++ p) c xf7) as [H2 H1].
  rewrite length_app in H1, H2. change (length sysExBulkHeader) with 8%nat in H1, H2.
  rewrite <- app_assoc in H1, H2.
  replace (length p + 10 - 1)%nat with (S (8 + length p)) by lia.
  replace (length p + 10 - 2)%nat with (8 + length p)%nat by lia.
  split; assumption.
Qed.

Lemma validBulkFrame_decompose (f : QByteArray) :
  validBulkFrame f -> f = bulkFrame (payloadOf f).
Proof.
  intros (Hlen & Hh & Ht & Hc). unfold QByteArray.size in Hlen.
  unfold bulkFrame. rewrite <- Hh.
  rewrite <- (take_drop 8 f) at 1. f_equal.
  unfold payloadOf at 1.
  rewrite <- (take_drop (length f - 10) (drop 8 f)) at 1. f_equal.
  rewrite drop_drop.
  replace (8 + (length f - 10))%nat with (length f - 2)%nat by lia.
  assert (Hl : length (drop (length f - 2) f) = 2%nat) by (rewrite length_drop; lia).
  destruct (drop (length f - 2) f) as [|a [|b [|? ?]]] eqn:E; try discriminate.
  pose proof (lookup_drop f (length f - 2) 0) as Ha.
  pose proof (lookup_drop f (length f - 2) 1) as Hb.
  rewrite E in Ha, Hb. simpl in Ha, Hb.
  replace (length f - 2 + 0)%nat with (length f - 2)%nat in Ha by lia.
  replace (length f - 2 + 1)%nat with (length f - 1)%nat in Hb by lia.
  simpl. congruence.
Qed.

(** ** Claims about the checksum and inbound validation *)

(** C1 (amended).  For every payload [P], [calcChecksum] of [P] lies in
    [0, 127] and equals [(-sum) & 0x7F], where [sum] adds the octets of [P]
    as signed 8-bit values.  For every payload of at least three octets (so
    in particular for every payload of 151 octets) the frame made of the
    bulk header, [P], the checksum octet and [F7] is a valid bulk frame and
    passes the length, header, terminator and checksum checks of
    [midiEvent]. *)
Theorem calcChecksum_roundtrip
    (process : QByteArray -> MainWindow -> MainWindow)
    (P : QByteArray) (accepted : bool) (w : MainWindow) :
  (0 <= calcChecksum P (QByteArray.size P) <= 127
   /\ calcChecksum P (QByteArray.size P) = checksum_spec P)
  /\ (3 <= QByteArray.size P ->
      validBulkFrame (bulkFrame P)
      /\ passedValidation
           (exitOf (midiEvent process (mkMidiEvent MidiSysEx (bulkFrame P) accepted) w))
         = true).
Proof.
  split.
  - split; [apply calcChecksum_range | apply calcChecksum_spec].
  - intros H. pose proof (bulkFrame_valid P H) as Hv. split; [exact Hv|].
    apply midiEvent_passes_iff; [reflexivity | exact Hv].
Qed.

Lemma calcChecksum_roundtrip_witness :
  3 <= QByteArray.size Sample.payload151
  /\ QByteArray.size Sample.payload151 = 151
  /\ passedValidation
       (exitOf (midiEvent Sample.process
                  (Sample.inbound (bulkFrame Sample.payload151)) Sample.window))
     = true.
Proof.
  assert (H : 3 <= QByteArray.size Sample.payload151) by (vm_compute; discriminate).
  split; [exact H|]. split; [reflexivity|].
  exact (proj2 (proj2 (calcChecksum_roundtrip Sample.process Sample.payload151
                         false Sample.window) H)).
Defined.

(** C1, counterexample.  With the empty payload the frame built the same
    way has ten octets and is turned away by the length check. *)
Lemma calcChecksum_roundtrip_short_payload :
  exitOf (midiEvent Sample.process (Sample.inbound (bulkFrame [])) Sample.window)
  = ExitTooShort
  /\ passedValidation
       (exitOf (midiEvent Sample.process (Sample.inbound (bulkFrame [])) Sample.window))
     = false.
Proof.
  split; reflexivity.
Qed.

(** C2 (amended).  An inbound SysEx frame passes validation if and only if
    its length is at least 13, its first eight octets are the bulk header,
    its last octet is [F7] and its last octet but one is [calcChecksum] of
    the octets between the header and that octet.  It is accepted for
    processing if and only if, in addition, the window is awaiting a dump
    response or an import ([isInTransmissionState] or [isInImportState]).
    Every frame failing one of the four checks, in particular every frame
    shorter than 13 octets, is dropped with the transfer-state flags and the
    Patch Store unchanged. *)
Theorem midiEvent_accepts_iff
    (process : QByteArray -> MainWindow -> MainWindow)
    (ev : MidiEvent) (w : MainWindow) :
  evType ev = MidiSysEx ->
  (passedValidation (exitOf (midiEvent process ev w)) = true
   <-> validBulkFrame (sysExData ev))
  /\ (exitOf (midiEvent process ev w) = ExitProcessed
      <-> validBulkFrame (sysExData ev)
          /\ (isInTransmissionState w = true \/ isInImportState w = true))
  /\ (QByteArray.size (sysExData ev) < 13 ->
      exitOf (midiEvent process ev w) = ExitTooShort)
  /\ (~ validBulkFrame (sysExData ev) ->
      isInTransmissionState (windowOf (midiEvent process ev w)) = isInTransmissionState w
      /\ isInImportState (windowOf (midiEvent process ev w)) = isInImportState w
      /\ newPatchDataList (windowOf (midiEvent process ev w)) = newPatchDataList w).
Proof.
  intros Hty.
  pose proof (midiEvent_passes_iff process ev w Hty) as Hiff.
  split; [exact Hiff|]. split; [|split].
  - split.
    + intros He.
      assert (Hp : passedValidation (exitOf (midiEvent process ev w)) = true)
        by (rewrite He; reflexivity).
      split; [apply Hiff, Hp|].
      rewrite (midiEvent_exit_cases process ev w Hp) in He.
      destruct (isInTransmissionState w), (isInImportState w); simpl in He;
        auto; discriminate.
    + intros [Hv Hst]. apply Hiff in Hv.
      rewrite (midiEvent_exit_cases process ev w Hv).
      destruct Hst as [-> | ->]; [|destruct (isInTransmissionState w)]; reflexivity.
  - intros Hlen. unfold midiEvent, exitOf. rewrite Hty. simpl.
    destruct (Z.ltb_spec (QByteArray.size (sysExData ev)) 13); [reflexivity | lia].
  - intros Hnv.
    assert (Hp : passedValidation (exitOf (midiEvent process ev w)) = false).
    { apply not_true_is_false. intros E. apply Hnv, Hiff, E. }
    destruct (midiEvent_rejected process ev w Hp) as [-> | ->]; auto.
Qed.

Lemma midiEvent_accepts_iff_witness :
  evType (Sample.inbound (bulkFrame Sample.payload3)) = MidiSysEx
  /\ (exitOf (midiEvent Sample.process (Sample.inbound (bulkFrame Sample.payload3))
                Sample.awaitingWindow) = ExitProcessed
      <-> validBulkFrame (bulkFrame Sample.payload3)
          /\ (isInTransmissionState Sample.awaitingWindow = true
              \/ isInImportState Sample.awaitingWindow = true)).
Proof.
  split; [reflexivity|].
  exact (proj1 (proj2 (midiEvent_accepts_iff Sample.process
                         (Sample.inbound (bulkFrame Sample.payload3))
                         Sample.awaitingWindow eq_refl))).
Defined.

(** C2, counterexample.  A frame that meets all four conditions is not
    accepted for processing by an idle window: control leaves at the
    unexpected-data test. *)
Lemma midiEvent_valid_frame_not_processed_when_idle :
  ~ (exitOf (midiEvent Sample.process (Sample.inbound (bulkFrame Sample.payload3))
               Sample.window) = ExitProcessed
     <-> validBulkFrame (bulkFrame Sample.payload3)).
Proof.
  intros [_ H].
  assert (Hv : validBulkFrame (bulkFrame Sample.payload3))
    by (apply bulkFrame_valid; vm_compute; discriminate).
  specialize (H Hv). vm_compute in H. discriminate.
Qed.

(** C5.  A frame that passes structural and checksum validation while
    neither [isInTransmissionState] nor [isInImportState] is set is dropped
    after the line "Incoming unexpected data!" is logged: the window is
    otherwise unchanged, so neither the Patch Store nor the transfer state
    moves. *)
Theorem midiEvent_unexpected_dropped
    (process : QByteArray -> MainWindow -> MainWindow)
    (ev : MidiEvent) (w : MainWindow) :
  evType ev = MidiSysEx ->
  validBulkFrame (sysExData ev) ->
  isInTransmissionState w = false ->
  isInImportState w = false ->
  exitOf (midiEvent process ev w) = ExitUnexpectedData
  /\ windowOf (midiEvent process ev w) = qDebug DbgUnexpectedData w
  /\ newPatchDataList (windowOf (midiEvent process ev w)) = newPatchDataList w
  /\ isInTransmissionState (windowOf (midiEvent process ev w)) = false
  /\ isInImportState (windowOf (midiEvent process ev w)) = false.
Proof.
  intros Hty Hv Ht Hi.
  apply (midiEvent_passes_iff process ev w Hty) in Hv.
  pose proof (midiEvent_exit_cases process ev w Hv) as He.
  rewrite Ht, Hi in He. simpl in He.
  pose proof (midiEvent_unexpected_window process ev w He) as Hw.
  rewrite Hw. auto.
Qed.

Lemma midiEvent_unexpected_dropped_witness :
  validBulkFrame (bulkFrame Sample.patch)
  /\ exitOf (midiEvent Sample.process (Sample.inbound (bulkFrame Sample.patch))
               Sample.window) = ExitUnexpectedData
  /\ newPatchDataList
       (windowOf (midiEvent Sample.process (Sample.inbound (bulkFrame Sample.patch))
                    Sample.window))
     = newPatchDataList Sample.window.
Proof.
  assert (Hv : validBulkFrame (bulkFrame Sample.patch))
    by (apply bulkFrame_valid; vm_compute; discriminate).
  split; [exact Hv|].
  pose proof (midiEvent_unexpected_dropped Sample.process
                (Sample.inbound (bulkFrame Sample.patch)) Sample.window
                eq_refl Hv eq_refl eq_refl) as (H1 & _ & H3 & _).
  split; [exact H1 | exact H3].
Defined.

(** C7 (amended).  An inbound bulk-dump frame is accepted by validation
    only if its total length is at least 13 octets: it then consists of the
    8-octet header, a payload of (total length - 10) octets, at least three,
    the checksum of that payload and [F7].  Validation does not ask for a
    payload of 159 octets. *)
Theorem midiEvent_accepted_length
    (process : QByteArray -> MainWindow -> MainWindow)
    (ev : MidiEvent) (w : MainWindow) :
  evType ev = MidiSysEx ->
  passedValidation (exitOf (midiEvent process ev w)) = true ->
  13 <= QByteArray.size (sysExData ev)
  /\ sysExData ev = bulkFrame (payloadOf (sysExData ev))
  /\ QByteArray.size (payloadOf (sysExData ev)) = QByteArray.size (sysExData ev) - 10
  /\ 3 <= QByteArray.size (payloadOf (sysExData ev)).
Proof.
  intros Hty Hp. apply (midiEvent_passes_iff process ev w Hty) in Hp.
  pose proof (validBulkFrame_decompose _ Hp) as Hd.
  destruct Hp as (Hlen & _).
  assert (Hs : QByteArray.size (payloadOf (sysExData ev))
               = QByteArray.size (sysExData ev) - 10).
  { unfold payloadOf, QByteArray.size in *. rewrite length_take, length_drop. lia. }
  repeat split; [exact Hlen | exact Hd | exact Hs | lia].
Qed.

Lemma midiEvent_accepted_length_witness :
  passedValidation
    (exitOf (midiEvent Sample.process (Sample.inbound (bulkFrame Sample.patch))
               Sample.awaitingWindow)) = true
  /\ QByteArray.size (bulkFrame Sample.patch) = 169
  /\ QByteArray.size (payloadOf (bulkFrame Sample.patch)) = 169 - 10.
Proof.
  assert (Hp : passedValidation
    (exitOf (midiEvent Sample.process (Sample.inbound (bulkFrame Sample.patch))
               Sample.awaitingWindow)) = true) by reflexivity.
  split; [exact Hp|]. split; [reflexivity|].
  pose proof (midiEvent_accepted_length Sample.process
                (Sample.inbound (bulkFrame Sample.patch)) Sample.awaitingWindow
                eq_refl Hp) as (_ & _ & H3 & _).
  exact H3.
Defined.

(** C7, counterexample.  A frame of 13 octets (a payload of three) passes
    validation and is processed by a window awaiting a dump. *)
Lemma midiEvent_accepts_13_octets :
  passedValidation
    (exitOf (midiEvent Sample.process (Sample.inbound (bulkFrame Sample.payload3))
               Sample.awaitingWindow)) = true
  /\ exitOf (midiEvent Sample.process (Sample.inbound (bulkFrame Sample.payload3))
               Sample.awaitingWindow) = ExitProcessed
  /\ QByteArray.size (bulkFrame Sample.payload3) = 13
  /\ QByteArray.size (bulkFrame Sample.payload3) <> 169.
Proof.
  split; [reflexivity|]. split; [reflexivity|]. split; [reflexivity|].
  vm_compute. discriminate.
Qed.

(** ** Parameter-send frames and their keys *)

Lemma parameterSendFrame_shape offset len data :
  parameterSendFrame offset len data
  = paramFrame (sectionOf offset, addressOf offset)
      ((fun i => QByteArray.at_ data (offset + i)) <$> seqZ 0 len).
Proof.
  unfold parameterSendFrame, paramFrame, sectionOf, addressOf, keyPrefix.
  destruct (offset <? PatchCommonLength); reflexivity.
Qed.

Lemma paramFrame_length k vals : length (paramFrame k vals) = (length vals + 10)%nat.
Proof.
  unfold paramFrame, keyPrefix. rewrite !length_app. simpl. lia.
Qed.

Lemma valueBytes_paramFrame k vals : valueBytes (paramFrame k vals) = vals.
Proof.
  unfold valueBytes. rewrite paramFrame_length.
  replace (length vals + 10 - 10)%nat with (length vals) by lia.
  unfold paramFrame, keyPrefix. simpl. apply take_app_length.
Qed.

Lemma left_paramFrame k vals :
  QByteArray.left (parameterSendHeaderLength + 3) (paramFrame k vals) = keyPrefix k.1 k.2.
Proof. reflexivity. Qed.

Lemma supersededBy_paramFrame k vals e :
  supersededBy (paramFrame k vals) e = matchesKey k.1 k.2 e.
Proof.
  unfold supersededBy, matchesKey. rewrite left_paramFrame. reflexivity.
Qed.

Lemma matchesKey_paramFrame (k k' : byte * byte) vals :
  matchesKey k.1 k.2 (sysExEvent (paramFrame k' vals)) = true <-> k = k'.
Proof.
  unfold matchesKey, sysExEvent, newMidiEvent. cbn [sysExData].
  rewrite startsWith_take.
  destruct k as [s a], k' as [s' a']. simpl. split.
  - intros [= -> ->]. reflexivity.
  - intros [= -> ->]. reflexivity.
Qed.


(** ** The erase loop and the enqueue *)

Lemma eraseSuperseded_kept r q :
  (eraseSuperseded r q).1 = List.filter (fun e => negb (supersededBy r e)) q.
Proof.
  induction q as [|e q IH]; simpl; [reflexivity|].
  destruct (eraseSuperseded r q) as [kept dbg]. simpl in IH.
  destruct (supersededBy r e); simpl; congruence.
Qed.

Lemma eraseSuperseded_dbg r q : callsIn (eraseSuperseded r q).2 = [].
Proof.
  induction q as [|e q IH]; simpl; [reflexivity|].
  destruct (eraseSuperseded r q) as [kept dbg]. simpl in IH.
  destruct (supersededBy r e); simpl; assumption.
Qed.

Lemma callsIn_app d1 d2 : callsIn (d1 ++ d2) = callsIn d1 ++ callsIn d2.
Proof.
  unfold callsIn. apply omap_app.
Qed.

Lemma sameStore_refl w : sameStore w w.
Proof. repeat split. Qed.

Lemma sameStore_trans w1 w2 w3 : sameStore w1 w2 -> sameStore w2 w3 -> sameStore w1 w3.
Proof.
  unfold sameStore. intros (?&?&?&?&?&?) (?&?&?&?&?&?). repeat split; congruence.
Qed.

Lemma qDebugs_fields ms w :
  sameStore w (qDebugs ms w)
  /\ midiOutQueue (qDebugs ms w) = midiOutQueue w
  /\ midiOutTimer (qDebugs ms w) = midiOutTimer w
  /\ debugOut (qDebugs ms w) = debugOut w ++ ms.
Proof.
  revert w. induction ms as [|m ms IH]; intros w; simpl.
  - rewrite app_nil_r. repeat split.
  - destruct (IH (qDebug m w)) as (Hs & Hq & Ht & Hd).
    unfold qDebugs in *. rewrite Hq, Ht, Hd. simpl. rewrite <- app_assoc.
    split; [|repeat split].
    eapply sameStore_trans; [|exact Hs]. repeat split.
Qed.

Lemma nameBranch_fields w :
  sameStore w (nameBranch w)
  /\ midiOutQueue (nameBranch w) = midiOutQueue w
  /\ midiOutTimer (nameBranch w) = midiOutTimer w
  /\ debugOut (nameBranch w) = debugOut w.
Proof.
  unfold nameBranch. destruct (currentPatchEdited w) as [first second] eqn:E.
  unfold sameStore. simpl. rewrite E. repeat split.
Qed.

Section ParameterOutFacts.

Variable QT_VERSION : Z.
Variable buildCCToWidgetMap : MainWindow -> list (Z * widgetWithVal).

Local Notation "'parameterChanged''" := (parameterChanged QT_VERSION buildCCToWidgetMap).

Lemma coalesceAndEnqueue_fields midiev w :
  sameStore w (coalesceAndEnqueue QT_VERSION midiev w)
  /\ midiOutQueue (coalesceAndEnqueue QT_VERSION midiev w)
     = coalesceStep (midiOutQueue w) midiev
  /\ exists delta,
       debugOut (coalesceAndEnqueue QT_VERSION midiev w) = debugOut w ++ delta
       /\ callsIn delta = [].
Proof.
  unfold coalesceAndEnqueue, coalesceStep.
  pose proof (eraseSuperseded_kept (sysExData midiev) (midiOutQueue w)) as Hk.
  pose proof (eraseSuperseded_dbg (sysExData midiev) (midiOutQueue w)) as Hd.
  destruct (eraseSuperseded (sysExData midiev) (midiOutQueue w)) as [kept dbg].
  simpl in Hk, Hd. subst kept.
  destruct (qDebugs_fields dbg
              (set_midiOutQueue
                 (List.filter (fun e => negb (supersededBy (sysExData midiev) e))
                              (midiOutQueue w)) w)) as (Hs & Hq & _ & Hdbg).
  set (w1 := qDebugs dbg _) in *.
  set (w2 := if 0x050900 <=? QT_VERSION then qDebug (DbgHex (sysExData midiev)) w1 else w1).
  assert (H2 : sameStore w1 w2 /\ midiOutQueue w2 = midiOutQueue w1
               /\ exists d, debugOut w2 = debugOut w1 ++ d /\ callsIn d = []).
  { subst w2. destruct (0x050900 <=? QT_VERSION).
    - split; [repeat split|]. split; [reflexivity|]. eexists. split; reflexivity.
    - split; [repeat split|]. split; [reflexivity|]. exists []. rewrite app_nil_r. auto. }
  destruct H2 as (Hs2 & Hq2 & d & Hd2 & Hc2).
  assert (Hst : sameStore w (startTimerIfIdle
                               (set_midiOutQueue (midiOutQueue w2 ++ [midiev]) w2))).
  { unfold startTimerIfIdle. simpl.
    eapply sameStore_trans; [|eapply sameStore_trans; [exact Hs|]].
    - repeat split.
    - eapply sameStore_trans; [exact Hs2|].
      destruct (negb (isActive (midiOutTimer w2))); repeat split. }
  split; [exact Hst|]. split.
  - unfold startTimerIfIdle. simpl.
    destruct (negb (isActive (midiOutTimer w2))); simpl; rewrite Hq2, Hq; reflexivity.
  - exists (dbg ++ d). split.
    + unfold startTimerIfIdle. simpl.
      destruct (negb (isActive (midiOutTimer w2))); simpl;
        rewrite Hd2, Hdbg; simpl; rewrite <- app_assoc; reflexivity.
    + rewrite callsIn_app, Hd, Hc2. reflexivity.
Qed.

Lemma applyTmpArray_fields offset len pw w :
  editWidget (applyTmpArray offset len pw w) = editWidget w
  /\ currentPatchEdited (applyTmpArray offset len pw w) = currentPatchEdited w
  /\ midiOutQueue (applyTmpArray offset len pw w) = midiOutQueue w
  /\ debugOut (applyTmpArray offset len pw w) = debugOut w
  /\ isInTransmissionState (applyTmpArray offset len pw w) = isInTransmissionState w
  /\ isInImportState (applyTmpArray offset len pw w) = isInImportState w
  /\ (hasFocus pw = true \/ tmpArray w = [] ->
      newPatchDataList (applyTmpArray offset len pw w) = newPatchDataList w
      /\ tmpArray (applyTmpArray offset len pw w) = tmpArray w).
Proof.
  unfold applyTmpArray.
  destruct (hasFocus pw); simpl.
  - repeat split.
  - destruct (tmpArray w) eqn:E; simpl.
    + repeat split; auto.
    + repeat split; destruct H; discriminate.
Qed.

Lemma refreshCCMap_fields pw w :
  sameStore w (refreshCCMap buildCCToWidgetMap pw w)
  /\ midiOutQueue (refreshCCMap buildCCToWidgetMap pw w) = midiOutQueue w
  /\ debugOut (refreshCCMap buildCCToWidgetMap pw w) = debugOut w.
Proof.
  unfold refreshCCMap. destruct (existsb _ _); repeat split.
Qed.

End ParameterOutFacts.

(** ** Calls of [parameterChanged] *)

Lemma CallSummary_compose pw l1 l2 f1 f2 w w1 w2 :
  CallSummary pw l1 f1 w w1 -> CallSummary pw l2 f2 w1 w2 ->
  CallSummary pw (l1 ++ l2) (f1 ++ f2) w w2.
Proof.
  intros (He1 & Hq1 & (d1 & Hd1 & Hc1) & Hs1 & Ht1 & Hi1)
         (He2 & Hq2 & (d2 & Hd2 & Hc2) & Hs2 & Ht2 & Hi2).
  split; [congruence|]. split.
  { rewrite Hq2, Hq1, fmap_app, foldl_app. reflexivity. }
  split.
  { exists (d1 ++ d2). rewrite Hd2, Hd1, callsIn_app, Hc1, Hc2, app_assoc. auto. }
  split; [|split; congruence].
  intros H. destruct (Hs1 H) as [Hn1 Hta1].
  assert (H' : hasFocus pw = true \/ tmpArray w1 = []).
  { destruct H as [H | H]; [left; exact H | right; congruence]. }
  destruct (Hs2 H') as [Hn2 Hta2]. split; congruence.
Qed.

Section Calls.

Variable QT_VERSION : Z.
Variable buildCCToWidgetMap : MainWindow -> list (Z * widgetWithVal).

Local Notation "'parameterChanged''" := (parameterChanged QT_VERSION buildCCToWidgetMap).

Lemma parameterChanged_null fuel offset len pw w :
  editWidget w = None ->
  parameterChanged' (S fuel) offset len pw w
  = Some (qDebug (DbgParameterChanged offset len) w).
Proof.
  intros H. simpl. rewrite H. reflexivity.
Qed.

Lemma parameterChanged_plain fuel offset len pw w e :
  editWidget w = Some e -> offset <> PatchName ->
  parameterChanged' (S fuel) offset len pw w
  = Some (refreshCCMap buildCCToWidgetMap pw
            (applyTmpArray offset len pw
               (coalesceAndEnqueue QT_VERSION
                  (sysExEvent (parameterSendFrame offset len (DataArray w e)))
                  (qDebug (DbgParameterChanged offset len) w)))).
Proof.
  intros H Hne. simpl. rewrite H.
  destruct (Z.eqb_spec offset PatchName) as [|_]; [contradiction|]. reflexivity.
Qed.

Lemma parameterChanged_name fuel len pw w e :
  editWidget w = Some e ->
  parameterChanged' (S fuel) PatchName len pw w
  = match
      forLoop (PatchName + 1) PatchNameLast
        (fun i => parameterChanged' fuel i 1 pw)
        (coalesceAndEnqueue QT_VERSION
           (sysExEvent (parameterSendFrame PatchName 1 (DataArray w e)))
           (nameBranch (qDebug (DbgParameterChanged PatchName len) w)))
    with
    | None => None
    | Some w1 =>
        Some (refreshCCMap buildCCToWidgetMap pw (applyTmpArray PatchName 1 pw w1))
    end.
Proof.
  intros H. simpl. rewrite H. cbn [Z.eqb PatchName Pos.eqb].
  destruct (nameBranch_fields (qDebug (DbgParameterChanged PatchName len) w))
    as ((_ & Hn & _) & _).
  unfold DataArray, patchAt. rewrite Hn. reflexivity.
Qed.

(** What the steps after the enqueue leave of a summary. *)
Lemma CallSummary_finish pw logged frames offset len w w1 :
  CallSummary pw logged frames w w1 ->
  CallSummary pw logged frames w
    (refreshCCMap buildCCToWidgetMap pw (applyTmpArray offset len pw w1)).
Proof.
  intros (He & Hq & (d & Hd & Hc) & Hs & Ht & Hi).
  destruct (applyTmpArray_fields offset len pw w1) as (Ae & _ & Aq & Ad & At & Ai & As).
  destruct (refreshCCMap_fields buildCCToWidgetMap pw (applyTmpArray offset len pw w1))
    as ((Re & Rn & _ & Rt & Rtr & Rim) & Rq & Rd).
  split; [congruence|]. split; [congruence|]. split.
  { exists d. split; congruence. }
  split; [|split; congruence].
  intros H. destruct (Hs H) as [Hn1 Hta1].
  assert (H' : hasFocus pw = true \/ tmpArray w1 = []).
  { destruct H as [H | H]; [left; exact H | right; congruence]. }
  destruct (As H') as [Hn2 Hta2]. split; congruence.
Qed.

(** The enqueue itself, as a summary. *)
Lemma CallSummary_enqueue pw frame w :
  CallSummary pw [] [frame] w (coalesceAndEnqueue QT_VERSION (sysExEvent frame) w).
Proof.
  destruct (coalesceAndEnqueue_fields QT_VERSION (sysExEvent frame) w)
    as ((He & Hn & _ & Ht & Htr & Him) & Hq & d & Hd & Hc).
  split; [exact He|]. split; [exact Hq|]. split; [exists d; auto|].
  split; [auto|]. split; assumption.
Qed.

Lemma CallSummary_qDebug pw offset len w :
  CallSummary pw [(offset, len)] [] w (qDebug (DbgParameterChanged offset len) w).
Proof.
  split; [reflexivity|]. split; [reflexivity|]. split.
  - exists [DbgParameterChanged offset len]. split; reflexivity.
  - repeat split.
Qed.

Lemma CallSummary_sameStore pw w w' :
  sameStore w w' -> midiOutQueue w' = midiOutQueue w -> debugOut w' = debugOut w ->
  CallSummary pw [] [] w w'.
Proof.
  intros (He & Hn & _ & Ht & Htr & Him) Hq Hd.
  split; [exact He|]. split; [exact Hq|]. split.
  - exists []. rewrite app_nil_r. auto.
  - repeat split; assumption.
Qed.

Lemma plain_call_summary fuel offset len pw w e :
  editWidget w = Some e -> offset <> PatchName ->
  exists w',
    parameterChanged' (S fuel) offset len pw w = Some w'
    /\ CallSummary pw [(offset, len)] [parameterSendFrame offset len (DataArray w e)] w w'.
Proof.
  intros H Hne. eexists. split; [apply parameterChanged_plain; eassumption|].
  apply CallSummary_finish.
  apply (CallSummary_compose pw [(offset, len)] [] [] [_] w _ _
           (CallSummary_qDebug pw offset len w)).
  apply CallSummary_enqueue.
Qed.

Lemma loop_summary fuel pw e ixs :
  Forall (fun i => i <> PatchName) ixs ->
  forall w, editWidget w = Some e ->
  exists w' frames,
    forEach (fun i => parameterChanged' (S fuel) i 1 pw) ixs w = Some w'
    /\ singleByteFrames ixs frames
    /\ CallSummary pw ((fun i => (i, 1)) <$> ixs) frames w w'.
Proof.
  induction 1 as [|i ixs Hi _ IH]; intros w He.
  - exists w, []. split; [reflexivity|]. split; [constructor|].
    apply CallSummary_sameStore; [apply sameStore_refl | reflexivity | reflexivity].
  - destruct (plain_call_summary fuel i 1 pw w e He Hi) as (w1 & Hw1 & S1).
    assert (He1 : editWidget w1 = Some e) by (destruct S1 as [-> _]; exact He).
    destruct (IH w1 He1) as (w' & frames & Hw' & Hf & S2).
    exists w', (parameterSendFrame i 1 (DataArray w e) :: frames).
    split; [cbn [forEach]; rewrite Hw1; exact Hw'|]. split.
    + constructor; [|exact Hf]. rewrite parameterSendFrame_shape. eexists. reflexivity.
    + exact (CallSummary_compose pw [(i, 1)] _ [_] frames w w1 w' S1 S2).
Qed.

Lemma nameTail_not_name : Forall (fun i => i <> PatchName) nameTail.
Proof.
  vm_compute. repeat constructor; discriminate.
Qed.

Lemma name_call_summary fuel len pw w e :
  editWidget w = Some e ->
  exists w' frames,
    parameterChanged' (S (S fuel)) PatchName len pw w = Some w'
    /\ singleByteFrames nameTail frames
    /\ CallSummary pw ((PatchName, len) :: ((fun i => (i, 1)) <$> nameTail))
         (parameterSendFrame PatchName 1 (DataArray w e) :: frames) w w'.
Proof.
  intros He. rewrite (parameterChanged_name (S fuel) len pw w e He).
  set (w0 := qDebug (DbgParameterChanged PatchName len) w).
  set (frame := parameterSendFrame PatchName 1 (DataArray w e)).
  set (w1 := coalesceAndEnqueue QT_VERSION (sysExEvent frame) (nameBranch w0)).
  assert (S01 : CallSummary pw [(PatchName, len)] [frame] w w1).
  { destruct (nameBranch_fields w0) as (Hs & Hq & _ & Hd).
    apply (CallSummary_compose pw [(PatchName, len)] [] [] [frame] w w0 w1
             (CallSummary_qDebug pw PatchName len w)).
    apply (CallSummary_compose pw [] [] [] [frame] w0 (nameBranch w0) w1
             (CallSummary_sameStore pw w0 _ Hs Hq Hd)).
    apply CallSummary_enqueue. }
  assert (He1 : editWidget w1 = Some e) by (destruct S01 as [-> _]; exact He).
  destruct (loop_summary fuel pw e nameTail nameTail_not_name w1 He1)
    as (w2 & frames & Hw2 & Hf & S12).
  exists (refreshCCMap buildCCToWidgetMap pw (applyTmpArray PatchName 1 pw w2)), frames.
  split; [unfold forLoop; fold nameTail; rewrite Hw2; reflexivity|].
  split; [exact Hf|].
  apply CallSummary_finish.
  exact (CallSummary_compose pw [(PatchName, len)] _ [frame] frames w w1 w2 S01 S12).
Qed.

End Calls.

(** ** The queue under [coalesceStep] *)

Lemma filter_filter_length {A} (p r : A -> bool) (l : list A) :
  (length (List.filter p (List.filter r l)) <= length (List.filter p l))%nat.
Proof.
  induction l as [|x l IH]; simpl; [lia|].
  destruct (r x); simpl; destruct (p x); simpl; lia.
Qed.

Lemma filter_neg_self {A} (p : A -> bool) (l : list A) :
  List.filter p (List.filter (fun x => negb (p x)) l) = [].
Proof.
  induction l as [|x l IH]; simpl; [reflexivity|].
  destruct (p x) eqn:E; simpl; [exact IH|]. rewrite E. exact IH.
Qed.

Lemma filter_all {A} (p : A -> bool) (l : list A) :
  Forall (fun x => p x = true) l -> List.filter p l = l.
Proof.
  induction 1 as [|x l Hx _ IH]; simpl; [reflexivity|]. rewrite Hx, IH. reflexivity.
Qed.

Lemma filter_filter_and {A} (p r : A -> bool) (l : list A) :
  List.filter p (List.filter r l) = List.filter (fun x => r x && p x) l.
Proof.
  induction l as [|x l IH]; simpl; [reflexivity|].
  destruct (r x); simpl; [destruct (p x)|]; congruence.
Qed.

Lemma coalesceStep_paramFrame q k vals :
  coalesceStep q (sysExEvent (paramFrame k vals))
  = List.filter (fun e => negb (matchesKey k.1 k.2 e)) q ++ [sysExEvent (paramFrame k vals)].
Proof.
  reflexivity.
Qed.

Lemma coalesceStep_length q ev : (length (coalesceStep q ev) <= length q + 1)%nat.
Proof.
  unfold coalesceStep. rewrite length_app. simpl.
  pose proof (List.filter_length_le (fun e => negb (supersededBy (sysExData ev) e)) q). lia.
Qed.

Lemma foldl_coalesceStep_length evs q :
  (length (foldl coalesceStep q evs) <= length q + length evs)%nat.
Proof.
  revert q. induction evs as [|ev evs IH]; intros q; simpl; [lia|].
  pose proof (IH (coalesceStep q ev)). pose proof (coalesceStep_length q ev). lia.
Qed.

(** One step keeps the queue coalesced and leaves exactly one entry for
    the key of the frame enqueued. *)
Lemma coalesceStep_coalesced q k vals :
  coalesced q -> coalesced (coalesceStep q (sysExEvent (paramFrame k vals))).
Proof.
  intros Hq s a. rewrite coalesceStep_paramFrame, List.filter_app, length_app.
  cbn [List.filter].
  destruct (matchesKey s a (sysExEvent (paramFrame k vals))) eqn:E.
  - apply (matchesKey_paramFrame (s, a) k vals) in E. subst k. cbn [fst snd].
    rewrite filter_neg_self. simpl. lia.
  - pose proof (filter_filter_length (matchesKey s a)
                  (fun e => negb (matchesKey k.1 k.2 e)) q).
    specialize (Hq s a). simpl. lia.
Qed.


Lemma foldl_coalesceStep_coalesced keys frames q :
  framesFor keys frames -> coalesced q ->
  coalesced (foldl coalesceStep q (sysExEvent <$> frames)).
Proof.
  intros H. revert q. induction H as [|k f keys frames [vals ->] _ IH]; intros q Hq.
  - exact Hq.
  - simpl. apply IH, coalesceStep_coalesced, Hq.
Qed.

Lemma framesFor_In keys frames f :
  framesFor keys frames -> In f frames ->
  exists k vals, In k keys /\ f = paramFrame k vals.
Proof.
  induction 1 as [|k f0 keys frames [vals ->] _ IH]; simpl; [tauto|].
  intros [<- | Hin].
  - exists k, vals. auto.
  - destruct (IH Hin) as (k' & vals' & Hk & ->). exists k', vals'. auto.
Qed.

(** Enqueuing frames for pairwise different keys: every earlier entry for
    one of the keys goes, the rest stays in order, and the new frames follow
    in the order of the calls. *)
Lemma foldl_coalesceStep_closed keys :
  forall frames q,
  NoDup keys -> framesFor keys frames ->
  foldl coalesceStep q (sysExEvent <$> frames)
  = List.filter (fun e => negb (matchesAnyKey keys e)) q ++ (sysExEvent <$> frames).
Proof.
  induction keys as [|k keys IH] using rev_ind; intros frames q Hnd Hf.
  - apply Forall2_nil_inv_l in Hf. subst frames. simpl.
    rewrite app_nil_r. symmetry. apply filter_all.
    apply Forall_forall. reflexivity.
  - apply Forall2_app_inv_l in Hf as (fs1 & fs2 & Hf1 & Hf2 & ->).
    apply Forall2_cons_inv_l in Hf2 as (f & fs3 & [vals ->] & Hnil & ->).
    apply Forall2_nil_inv_l in Hnil. subst fs3.
    apply NoDup_app in Hnd as (Hnd1 & Hdisj & _).
    rewrite fmap_app, foldl_app. cbn [fmap list_fmap foldl].
    rewrite (IH fs1 q Hnd1 Hf1).
    rewrite coalesceStep_paramFrame, List.filter_app, <- app_assoc. f_equal.
    + rewrite filter_filter_and. apply List.filter_ext. intros e.
      unfold matchesAnyKey. rewrite existsb_app. simpl. rewrite orb_false_r.
      rewrite negb_orb. reflexivity.
    + f_equal. apply filter_all. apply List.Forall_forall. intros ev Hin.
      apply List.in_map_iff in Hin as (f' & <- & Hin').
      destruct (framesFor_In keys fs1 f' Hf1 Hin') as (k' & vals' & Hk' & ->).
      apply negb_true_iff. apply not_true_is_false. intros Hm.
      apply matchesKey_paramFrame in Hm. subst k'.
      apply (Hdisj k); [apply list_elem_of_In; exact Hk' | left].
Qed.

(** ** The name call in closed form *)

Lemma nameTail_eq : nameTail = [17; 18; 19; 20; 21; 22; 23; 24; 25; 26; 27].
Proof. reflexivity. Qed.

Lemma nameKeys_NoDup : NoDup nameKeys.
Proof.
  vm_compute.
  repeat (apply NoDup_cons_2;
          [rewrite ?not_elem_of_cons; repeat split;
           solve [discriminate | apply not_elem_of_nil] |]).
  apply NoDup_nil_2.
Qed.

Lemma singleByteFrames_common ixs frames :
  Forall (fun i => i < PatchCommonLength) ixs ->
  singleByteFrames ixs frames ->
  exists vs, length vs = length ixs /\ frames = commonFrames ixs vs.
Proof.
  intros Hc H. induction H as [|i f ixs frames [v ->] _ IH].
  - exists []. split; reflexivity.
  - apply Forall_cons in Hc as [Hi Hc].
    destruct (IH Hc) as (vs & Hl & ->).
    exists (v :: vs). split; [simpl; congruence|].
    unfold commonFrames. simpl. f_equal.
    unfold sectionOf, addressOf.
    destruct (Z.ltb_spec i PatchCommonLength); [reflexivity | lia].
Qed.

Lemma commonFrames_framesFor ixs vs :
  length vs = length ixs ->
  framesFor ((fun o => (x00, to_char o)) <$> ixs) (commonFrames ixs vs).
Proof.
  revert vs. induction ixs as [|i ixs IH]; intros [|v vs] Hl; try discriminate.
  - constructor.
  - simpl. constructor; [eexists; reflexivity|]. apply IH. simpl in Hl. lia.
Qed.

Lemma commonFrames_length ixs vs :
  length vs = length ixs -> length (commonFrames ixs vs) = length ixs.
Proof.
  intros H. unfold commonFrames. rewrite length_zip_with. lia.
Qed.

Section NameCall.

Variable QT_VERSION : Z.
Variable buildCCToWidgetMap : MainWindow -> list (Z * widgetWithVal).

Local Notation "'parameterChanged''" := (parameterChanged QT_VERSION buildCCToWidgetMap).

Lemma name_call_closed fuel len pw w e :
  editWidget w = Some e ->
  exists w' vs,
    parameterChanged' (S (S fuel)) PatchName len pw w = Some w'
    /\ length vs = 11%nat
    /\ CallSummary pw ((PatchName, len) :: ((fun i => (i, 1)) <$> nameTail))
         (commonFrames (seqZ PatchName PatchNameLength)
            (QByteArray.at_ (DataArray w e) PatchName :: vs)) w w'
    /\ midiOutQueue w'
       = List.filter (fun ev => negb (matchesAnyKey nameKeys ev)) (midiOutQueue w)
         ++ (sysExEvent <$> commonFrames (seqZ PatchName PatchNameLength)
                              (QByteArray.at_ (DataArray w e) PatchName :: vs)).
Proof.
  intros He.
  destruct (name_call_summary QT_VERSION buildCCToWidgetMap fuel len pw w e He)
    as (w' & frames & Hw' & Hf & Sm).
  assert (Hc : Forall (fun i => i < PatchCommonLength) nameTail).
  { rewrite nameTail_eq. repeat constructor. }
  destruct (singleByteFrames_common nameTail frames Hc Hf) as (vs & Hl & ->).
  exists w', vs. split; [exact Hw'|]. split; [rewrite Hl; reflexivity|].
  assert (Hfr : parameterSendFrame PatchName 1 (DataArray w e) :: commonFrames nameTail vs
                = commonFrames (seqZ PatchName PatchNameLength)
                    (QByteArray.at_ (DataArray w e) PatchName :: vs)).
  { rewrite parameterSendFrame_shape. reflexivity. }
  rewrite Hfr in Sm. split; [exact Sm|].
  destruct Sm as (_ & Hq & _). rewrite Hq.
  apply foldl_coalesceStep_closed; [apply nameKeys_NoDup|].
  apply commonFrames_framesFor. simpl. rewrite Hl. reflexivity.
Qed.

(** Every call returns once two nested calls are allowed, and its effect is
    that of enqueuing at most twelve frames. *)
Lemma parameterChanged_summary fuel offset len pw w :
  exists w' logged frames,
    parameterChanged' (S (S fuel)) offset len pw w = Some w'
    /\ CallSummary pw logged frames w w'
    /\ (exists keys, framesFor keys frames)
    /\ (length frames <= 12)%nat
    /\ logged = (offset, len)
                :: (if (offset =? PatchName) && bool_decide (editWidget w <> None)
                    then (fun i => (i, 1)) <$> nameTail else []).
Proof.
  destruct (editWidget w) as [e|] eqn:He.
  - destruct (Z.eqb_spec offset PatchName) as [-> | Hne].
    + destruct (name_call_closed fuel len pw w e He) as (w' & vs & Hw' & Hl & Sm & _).
      eexists w', _, _. split; [exact Hw'|]. split; [exact Sm|].
      split; [|split].
      * eexists. apply commonFrames_framesFor. simpl. rewrite Hl. reflexivity.
      * rewrite commonFrames_length; simpl; rewrite ?Hl; [lia | reflexivity].
      * reflexivity.
    + destruct (plain_call_summary QT_VERSION buildCCToWidgetMap (S fuel) offset len pw w e
                  He Hne) as (w' & Hw' & Sm).
      eexists w', _, _. split; [exact Hw'|]. split; [exact Sm|].
      split; [|split].
      * exists [(sectionOf offset, addressOf offset)]. constructor; [|constructor].
        rewrite parameterSendFrame_shape. eexists. reflexivity.
      * simpl. lia.
      * reflexivity.
  - eexists _, _, []. split; [apply parameterChanged_null; exact He|].
    split; [apply CallSummary_qDebug|]. split; [exists []; constructor|].
    split; [simpl; lia|]. rewrite andb_false_r. reflexivity.
Qed.

End NameCall.

(** ** Fuel *)

Section Fuel.

Variable QT_VERSION : Z.
Variable buildCCToWidgetMap : MainWindow -> list (Z * widgetWithVal).

Local Notation "'parameterChanged''" := (parameterChanged QT_VERSION buildCCToWidgetMap).

Lemma forEach_ext {S : Type} (f g : Z -> S -> option S) ixs :
  Forall (fun i => forall s, f i s = g i s) ixs ->
  forall s, forEach f ixs s = forEach g ixs s.
Proof.
  induction 1 as [|i ixs Hi _ IH]; intros s; simpl; [reflexivity|].
  rewrite Hi. destruct (g i s); [apply IH | reflexivity].
Qed.

Lemma plain_fuel fuel offset len pw w :
  offset <> PatchName ->
  parameterChanged' (S fuel) offset len pw w = parameterChanged' 1 offset len pw w.
Proof.
  intros Hne. destruct (editWidget w) as [e|] eqn:He.
  - rewrite !(parameterChanged_plain _ _ _ _ _ _ _ e He Hne). reflexivity.
  - rewrite !(parameterChanged_null _ _ _ _ _ _ _ He). reflexivity.
Qed.

Lemma fuel_irrelevant fuel offset len pw w :
  parameterChanged' (S (S fuel)) offset len pw w = parameterChanged' 2 offset len pw w.
Proof.
  destruct (Z.eq_dec offset PatchName) as [-> | Hne].
  - destruct (editWidget w) as [e|] eqn:He.
    + rewrite !(parameterChanged_name _ _ _ _ _ _ e He). unfold forLoop.
      rewrite (forEach_ext (fun i => parameterChanged' (S fuel) i 1 pw)
                           (fun i => parameterChanged' 1 i 1 pw)); [reflexivity|].
      fold nameTail. eapply Forall_impl; [exact nameTail_not_name|].
      intros i Hi s. apply plain_fuel, Hi.
    + rewrite !(parameterChanged_null _ _ _ _ _ _ _ He). reflexivity.
  - rewrite (plain_fuel (S fuel)), (plain_fuel 1); auto.
Qed.

(** A single level of calls is too little exactly when the name branch is
    taken. *)
Lemma fuel_one offset len pw w :
  parameterChanged' 1 offset len pw w = None
  <-> offset = PatchName /\ editWidget w <> None.
Proof.
  split.
  - intros H. destruct (editWidget w) as [e|] eqn:He.
    + destruct (Z.eq_dec offset PatchName) as [-> | Hne]; [split; congruence|].
      rewrite (parameterChanged_plain _ _ _ _ _ _ _ e He Hne) in H. discriminate.
    + rewrite (parameterChanged_null _ _ _ _ _ _ _ He) in H. discriminate.
  - intros [-> He]. destruct (editWidget w) as [e|] eqn:E; [|congruence].
    rewrite (parameterChanged_name _ _ _ _ _ _ e E). reflexivity.
Qed.

End Fuel.

(** ** The queue invariant along a series of calls *)

Section Invariant.

Variable QT_VERSION : Z.
Variable buildCCToWidgetMap : MainWindow -> list (Z * widgetWithVal).

Lemma call_preserves_coalesced fuel offset len pw w :
  coalesced (midiOutQueue w) ->
  exists w',
    parameterChanged QT_VERSION buildCCToWidgetMap (S (S fuel)) offset len pw w = Some w'
    /\ coalesced (midiOutQueue w').
Proof.
  intros Hc.
  destruct (parameterChanged_summary QT_VERSION buildCCToWidgetMap fuel offset len pw w)
    as (w' & logged & frames & Hw' & (_ & Hq & _) & (keys & Hk) & _).
  exists w'. split; [exact Hw'|]. rewrite Hq.
  exact (foldl_coalesceStep_coalesced keys frames _ Hk Hc).
Qed.

(** Starting from a coalesced queue (the empty one, say), every series of
    calls returns and leaves a coalesced queue. *)
Lemma calls_preserve_coalesced calls :
  forall w, coalesced (midiOutQueue w) ->
  exists w',
    runCalls QT_VERSION buildCCToWidgetMap calls w = Some w'
    /\ coalesced (midiOutQueue w').
Proof.
  unfold runCalls. induction calls as [|[[offset len] pw] calls IH]; intros w Hc.
  - exists w. split; [reflexivity | exact Hc].
  - cbn [foldl fst snd].
    destruct (call_preserves_coalesced 0 offset len pw w Hc) as (w1 & Hw1 & Hc1).
    rewrite Hw1. apply IH, Hc1.
Qed.

Lemma coalesced_nil : coalesced [].
Proof.
  intros s a. simpl. lia.
Qed.

End Invariant.

(** ** Claims about [parameterChanged] *)

(** A call allowed at least two levels is a call allowed [S (S fuel)]. *)
Ltac two_levels fuel H := destruct fuel as [|[|fuel]]; [lia | lia | clear H].




Section Enqueued.

Variable QT_VERSION : Z.
Variable buildCCToWidgetMap : MainWindow -> list (Z * widgetWithVal).

(** The frame a call builds for its own offset is in the queue when the
    call returns. *)
Lemma enqueued_in_queue fuel offset len pw w e :
  editWidget w = Some e ->
  exists w',
    parameterChanged QT_VERSION buildCCToWidgetMap (S (S fuel)) offset len pw w = Some w'
    /\ In (sysExEvent (parameterSendFrame offset (if offset =? PatchName then 1 else len)
                         (DataArray w e)))
          (midiOutQueue w').
Proof.
  intros He. destruct (Z.eqb_spec offset PatchName) as [-> | Hne].
  - destruct (name_call_closed QT_VERSION buildCCToWidgetMap fuel len pw w e He)
      as (w' & vs & Hw' & _ & _ & Hq).
    exists w'. split; [exact Hw'|]. rewrite Hq. apply List.in_or_app. right.
    rewrite parameterSendFrame_shape. left. reflexivity.
  - destruct (plain_call_summary QT_VERSION buildCCToWidgetMap (S fuel) offset len pw w e
                He Hne) as (w' & Hw' & (_ & Hq & _)).
    exists w'. split; [exact Hw'|]. rewrite Hq. cbn [fmap list_fmap foldl].
    unfold coalesceStep. apply List.in_or_app. right. left. reflexivity.
Qed.

End Enqueued.

(** C4.  For every offset in [0, 159) the frame built carries, after the
    header and [0x20], section octet [0x00] and address octet [offset] when
    [offset < 32], and section octet [0x01] and address octet [offset - 32]
    when [offset >= 32]; offsets 31, 32 and 158 map to (0x00, 31),
    (0x01, 0) and (0x01, 126).  The frame is the one [parameterChanged]
    enqueues. *)
Theorem parameterSendFrame_section_address
    (QT_VERSION : Z) (buildCCToWidgetMap : MainWindow -> list (Z * widgetWithVal))
    (fuel : nat) (offset len : Z) (pw : QWidget) (w : MainWindow)
    (e : ArrayDataEditWidget) :
  0 <= offset < PatchTotalLength ->
  editWidget w = Some e ->
  (2 <= fuel)%nat ->
  let frame := parameterSendFrame offset (if offset =? PatchName then 1 else len)
                 (DataArray w e) in
  (exists w',
     parameterChanged QT_VERSION buildCCToWidgetMap fuel offset len pw w = Some w'
     /\ In (sysExEvent frame) (midiOutQueue w'))
  /\ take 7 frame = sysExParameterSendHeader ++ [x20]
  /\ (offset < PatchCommonLength ->
      frame !! 7%nat = Some x00
      /\ exists a, frame !! 8%nat = Some a /\ uchar a = offset)
  /\ (PatchCommonLength <= offset ->
      frame !! 7%nat = Some x01
      /\ exists a, frame !! 8%nat = Some a /\ uchar a = offset - PatchCommonLength)
  /\ (offset = 31 -> frame !! 7%nat = Some x00 /\ frame !! 8%nat = Some x1f)
  /\ (offset = 32 -> frame !! 7%nat = Some x01 /\ frame !! 8%nat = Some x00)
  /\ (offset = 158 -> frame !! 7%nat = Some x01 /\ frame !! 8%nat = Some x7e).
Proof.
  intros Hoff He Hfuel frame. two_levels fuel Hfuel.
  split; [apply enqueued_in_queue; exact He|].
  subst frame. rewrite parameterSendFrame_shape.
  unfold PatchTotalLength, PatchCommonLength, PatchEffectLength in *.
  split; [reflexivity|].
  unfold sectionOf, addressOf, PatchCommonLength.
  split; [|split; [|split; [|split]]].
  - intros Hlt. destruct (Z.ltb_spec offset 32); [|lia].
    split; [reflexivity|]. exists (to_char offset). split; [reflexivity|].
    rewrite uchar_to_char. apply Z.mod_small. lia.
  - intros Hge. destruct (Z.ltb_spec offset 32); [lia|].
    split; [reflexivity|]. exists (to_char (offset - 32)). split; [reflexivity|].
    rewrite uchar_to_char. apply Z.mod_small. lia.
  - intros ->. split; reflexivity.
  - intros ->. split; reflexivity.
  - intros ->. split; reflexivity.
Qed.

Lemma parameterSendFrame_section_address_witness :
  0 <= 158 < PatchTotalLength
  /\ editWidget Sample.window = Some (DataInPatchStore 0 3)
  /\ (2 <= 2)%nat
  /\ parameterSendFrame 158 1 Sample.patch !! 7%nat = Some x01
  /\ parameterSendFrame 158 1 Sample.patch !! 8%nat = Some x7e.
Proof.
  assert (H : 0 <= 158 < PatchTotalLength)
    by (unfold PatchTotalLength, PatchCommonLength, PatchEffectLength; lia).
  split; [exact H|]. split; [reflexivity|]. split; [lia|].
  exact (proj2 (proj2 (proj2 (proj2 (proj2 (proj2
           (parameterSendFrame_section_address Sample.qtVersion Sample.buildCC 2 158 1
              Sample.focused Sample.window (DataInPatchStore 0 3) H eq_refl (le_n 2)))))))
           eq_refl).
Defined.

(** C6 (amended).  A call with offset [PatchName] (16) and length 12 that
    finds the edit widget enqueues exactly twelve frames: earlier entries
    for the addresses 16 to 27 are removed and the twelve new frames are
    appended in order, each with section [0x00], address [16 + i] and one
    value octet (so the length 12 asked for is replaced by 1, and the eleven
    further calls the debug stream records are those for offsets 17 to 27
    with length 1).  A call that finds no edit widget returns after the
    debug line: the window is otherwise as it was and nothing is
    enqueued. *)
Theorem parameterChanged_name_twelve_frames
    (QT_VERSION : Z) (buildCCToWidgetMap : MainWindow -> list (Z * widgetWithVal))
    (fuel : nat) (pw : QWidget) (w : MainWindow) :
  (2 <= fuel)%nat ->
  (forall e, editWidget w = Some e ->
     exists w' vs delta,
       parameterChanged QT_VERSION buildCCToWidgetMap fuel PatchName 12 pw w = Some w'
       /\ length vs = 12%nat
       /\ vs !! 0%nat = Some (QByteArray.at_ (DataArray w e) PatchName)
       /\ midiOutQueue w'
          = List.filter (fun ev => negb (matchesAnyKey nameKeys ev)) (midiOutQueue w)
            ++ zip_with (fun i v => sysExEvent (paramFrame (x00, to_char (16 + i)) [v]))
                        (seqZ 0 12) vs
       /\ debugOut w' = debugOut w ++ delta
       /\ callsIn delta = (PatchName, 12) :: ((fun i => (i, 1)) <$> seqZ 17 11))
  /\ (editWidget w = None ->
      parameterChanged QT_VERSION buildCCToWidgetMap fuel PatchName 12 pw w
      = Some (qDebug (DbgParameterChanged PatchName 12) w)
      /\ midiOutQueue (qDebug (DbgParameterChanged PatchName 12) w) = midiOutQueue w).
Proof.
  intros Hfuel. two_levels fuel Hfuel.
  split;
    [|intros He; split;
      [exact (parameterChanged_null QT_VERSION buildCCToWidgetMap (S fuel) PatchName 12
                pw w He) | reflexivity]].
  intros e He.
  destruct (name_call_closed QT_VERSION buildCCToWidgetMap fuel 12 pw w e He)
    as (w' & vs & Hw' & Hl & Sm & Hq).
  destruct Sm as (_ & _ & (delta & Hd & Hc) & _).
  exists w', (QByteArray.at_ (DataArray w e) PatchName :: vs), delta.
  split; [exact Hw'|]. split; [simpl; rewrite Hl; reflexivity|].
  split; [reflexivity|]. split; [|split; [exact Hd | exact Hc]].
  rewrite Hq. f_equal.
  destruct vs as [|v1 [|v2 [|v3 [|v4 [|v5 [|v6 [|v7 [|v8 [|v9 [|v10 [|v11 [|? ?]]]]]]]]]]]];
    try discriminate.
  reflexivity.
Qed.

Lemma parameterChanged_name_twelve_frames_witness :
  editWidget Sample.busyWindow = Some (DataInPatchStore 0 3)
  /\ (2 <= 2)%nat
  /\ exists w',
       parameterChanged Sample.qtVersion Sample.buildCC 2 PatchName 12 Sample.unfocused
         Sample.busyWindow = Some w'
       /\ length (midiOutQueue w') = 13%nat.
Proof.
  split; [reflexivity|]. split; [lia|].
  destruct (proj1 (parameterChanged_name_twelve_frames Sample.qtVersion Sample.buildCC 2
                     Sample.unfocused Sample.busyWindow (le_n 2))
                  (DataInPatchStore 0 3) eq_refl)
    as (w' & vs & delta & Hw' & Hl & _ & Hq & _).
  exists w'. split; [exact Hw'|].
  rewrite Hq, length_app, length_zip_with, Hl. reflexivity.
Defined.

(** C6, counterexample.  With no edit widget the call for offset
    [PatchName] and length 12 enqueues no frame at all. *)
Lemma parameterChanged_name_no_widget_no_frames :
  editWidget Sample.bareWindow = None
  /\ exists w',
       parameterChanged Sample.qtVersion Sample.buildCC 2 PatchName 12 Sample.focused
         Sample.bareWindow = Some w'
       /\ midiOutQueue w' = []
       /\ callsIn (debugOut w') = [(PatchName, 12)].
Proof.
  split; [reflexivity|].
  eexists. split; [vm_compute; reflexivity|].
  split; reflexivity.
Qed.





Section TmpArray.

Variable QT_VERSION : Z.
Variable buildCCToWidgetMap : MainWindow -> list (Z * widgetWithVal).

Lemma applyTmpArray_commit offset len pw w :
  hasFocus pw = false -> tmpArray w <> [] ->
  applyTmpArray offset len pw w = commitTmpArray offset len w.
Proof.
  intros Hf Ht. unfold applyTmpArray. rewrite Hf.
  destruct (tmpArray w); [contradiction | reflexivity].
Qed.

(** A plain call made without focus and with a pending value writes the
    value into the patch under the cursor and clears it. *)
Lemma plain_call_commits fuel offset len pw w e w' :
  editWidget w = Some e -> offset <> PatchName ->
  hasFocus pw = false -> tmpArray w <> [] ->
  parameterChanged QT_VERSION buildCCToWidgetMap (S fuel) offset len pw w = Some w' ->
  newPatchDataList w'
  = <[currentPatchEdited w :=
        QByteArray.replace offset len (tmpArray w) (patchAt w (currentPatchEdited w))]>
      (newPatchDataList w)
  /\ tmpArray w' = [].
Proof.
  intros He Hne Hf Ht Hw'.
  rewrite (parameterChanged_plain _ _ _ _ _ _ _ e He Hne) in Hw'. injection Hw' as <-.
  set (w1 := coalesceAndEnqueue _ _ _).
  destruct (coalesceAndEnqueue_fields QT_VERSION
              (sysExEvent (parameterSendFrame offset len (DataArray w e)))
              (qDebug (DbgParameterChanged offset len) w))
    as ((_ & Hn & Hc & Hta & _) & _). fold w1 in Hn, Hc, Hta.
  simpl in Hn, Hc, Hta.
  destruct (refreshCCMap_fields buildCCToWidgetMap pw (applyTmpArray offset len pw w1))
    as ((_ & Rn & _ & Rt & _) & _).
  rewrite Rn, Rt, applyTmpArray_commit by congruence.
  unfold commitTmpArray, patchAt. simpl. rewrite Hn, Hc, Hta. auto.
Qed.

End TmpArray.

(** C9 (amended).  Whenever [parameterChanged] gets as far as building a
    frame (the edit widget exists), the frame is enqueued whatever the focus
    and whatever [tmpArray] holds.  The Patch Store changes only if the
    widget has no focus and [tmpArray] is not empty; while the widget has
    focus the store and [tmpArray] are left as they were although the frame
    is queued.  For an offset other than [PatchName], a call without focus
    and with a pending value writes it at [offset] and clears [tmpArray].
    A call that finds no edit widget builds and enqueues nothing and leaves
    the store and [tmpArray] as they were, whatever the focus. *)
Theorem parameterChanged_tmpArray_gate
    (QT_VERSION : Z) (buildCCToWidgetMap : MainWindow -> list (Z * widgetWithVal))
    (fuel : nat) (offset len : Z) (pw : QWidget) (w : MainWindow) :
  (2 <= fuel)%nat ->
  exists w',
    parameterChanged QT_VERSION buildCCToWidgetMap fuel offset len pw w = Some w'
    /\ (forall e, editWidget w = Some e ->
        In (sysExEvent (parameterSendFrame offset (if offset =? PatchName then 1 else len)
                          (DataArray w e)))
           (midiOutQueue w'))
    /\ (editWidget w = None ->
        midiOutQueue w' = midiOutQueue w
        /\ newPatchDataList w' = newPatchDataList w /\ tmpArray w' = tmpArray w)
    /\ (hasFocus pw = true ->
        newPatchDataList w' = newPatchDataList w /\ tmpArray w' = tmpArray w)
    /\ (newPatchDataList w' <> newPatchDataList w ->
        hasFocus pw = false /\ tmpArray w <> [] /\ editWidget w <> None)
    /\ (forall e, editWidget w = Some e ->
        offset <> PatchName -> hasFocus pw = false -> tmpArray w <> [] ->
        newPatchDataList w'
        = <[currentPatchEdited w :=
              QByteArray.replace offset len (tmpArray w)
                (patchAt w (currentPatchEdited w))]> (newPatchDataList w)
        /\ tmpArray w' = []).
Proof.
  intros Hfuel. two_levels fuel Hfuel.
  destruct (parameterChanged_summary QT_VERSION buildCCToWidgetMap fuel offset len pw w)
    as (w' & logged & frames & Hw' & Sm & _).
  destruct Sm as (_ & _ & _ & Hs & _).
  assert (Hnull : editWidget w = None ->
                  midiOutQueue w' = midiOutQueue w
                  /\ newPatchDataList w' = newPatchDataList w
                  /\ tmpArray w' = tmpArray w).
  { intros He.
    rewrite (parameterChanged_null QT_VERSION buildCCToWidgetMap _ _ _ _ _ He) in Hw'.
    injection Hw' as <-. repeat split. }
  exists w'. split; [exact Hw'|]. split; [|split; [exact Hnull|split; [|split]]].
  - intros e He.
    destruct (enqueued_in_queue QT_VERSION buildCCToWidgetMap fuel offset len pw w e He)
      as (w1 & Hw1 & Hin).
    rewrite Hw' in Hw1. injection Hw1 as <-. exact Hin.
  - intros Hf. apply Hs. left. exact Hf.
  - intros Hch. destruct (hasFocus pw) eqn:Hf.
    + exfalso. apply Hch. apply Hs. left. reflexivity.
    + split; [reflexivity|]. split.
      * intros Ht. apply Hch. apply Hs. right. exact Ht.
      * intros He. apply Hch. apply (Hnull He).
  - intros e He Hne Hf Ht.
    exact (plain_call_commits QT_VERSION buildCCToWidgetMap (S fuel) offset len pw w e w'
             He Hne Hf Ht Hw').
Qed.

Lemma parameterChanged_tmpArray_gate_witness :
  editWidget Sample.busyWindow = Some (DataInPatchStore 0 3)
  /\ (2 <= 2)%nat
  /\ hasFocus Sample.focused = true
  /\ exists w',
       parameterChanged Sample.qtVersion Sample.buildCC 2 40 2 Sample.focused
         Sample.busyWindow = Some w'
       /\ In (sysExEvent (parameterSendFrame 40 2
                            (DataArray Sample.busyWindow (DataInPatchStore 0 3))))
             (midiOutQueue w')
       /\ newPatchDataList w' = newPatchDataList Sample.busyWindow
       /\ tmpArray w' = tmpArray Sample.busyWindow.
Proof.
  split; [reflexivity|]. split; [lia|]. split; [reflexivity|].
  destruct (parameterChanged_tmpArray_gate Sample.qtVersion Sample.buildCC 2 40 2
              Sample.focused Sample.busyWindow (le_n 2))
    as (w' & Hw' & Hin & _ & Hfoc & _).
  exists w'. split; [exact Hw'|].
  split; [exact (Hin (DataInPatchStore 0 3) eq_refl)|]. exact (Hfoc eq_refl).
Defined.

(** C9, counterexample.  With no edit widget the call builds and enqueues
    no frame, and the pending value stays pending although the widget has
    no focus. *)
Lemma parameterChanged_no_widget_nothing_sent :
  editWidget Sample.bareWindow = None
  /\ hasFocus Sample.unfocused = false
  /\ tmpArray Sample.bareWindow <> []
  /\ exists w',
       parameterChanged Sample.qtVersion Sample.buildCC 2 40 2 Sample.unfocused
         Sample.bareWindow = Some w'
       /\ midiOutQueue w' = []
       /\ isActive (midiOutTimer w') = false
       /\ newPatchDataList w' = newPatchDataList Sample.bareWindow
       /\ tmpArray w' = [x41].
Proof.
  split; [reflexivity|]. split; [reflexivity|]. split; [discriminate|].
  eexists. split; [vm_compute; reflexivity|].
  repeat split.
Qed.

(** C10.  [parameterChanged] returns for every input as soon as two levels
    of calls are allowed, with the same result however many more are
    allowed: the call nests only when the offset is [PatchName] (one level
    is too little exactly then, given an edit widget), and the calls it then
    makes are those for offsets 17 to 27, none of which is [PatchName].  A
    top-level call makes at most twelve calls in all and enqueues at most
    twelve frames. *)
Theorem parameterChanged_terminates
    (QT_VERSION : Z) (buildCCToWidgetMap : MainWindow -> list (Z * widgetWithVal))
    (fuel : nat) (offset len : Z) (pw : QWidget) (w : MainWindow) :
  (2 <= fuel)%nat ->
  exists w' delta frames,
    parameterChanged QT_VERSION buildCCToWidgetMap fuel offset len pw w = Some w'
    /\ parameterChanged QT_VERSION buildCCToWidgetMap 2 offset len pw w = Some w'
    /\ (parameterChanged QT_VERSION buildCCToWidgetMap 1 offset len pw w = None
        <-> offset = PatchName /\ editWidget w <> None)
    /\ debugOut w' = debugOut w ++ delta
    /\ callsIn delta
       = (offset, len)
         :: (if (offset =? PatchName) && bool_decide (editWidget w <> None)
             then (fun i => (i, 1)) <$> seqZ 17 11 else [])
    /\ Forall (fun c => c.1 <> PatchName) (tail (callsIn delta))
    /\ (length (callsIn delta) <= 12)%nat
    /\ midiOutQueue w' = foldl coalesceStep (midiOutQueue w) (sysExEvent <$> frames)
    /\ (length frames <= 12)%nat
    /\ (length (midiOutQueue w') <= length (midiOutQueue w) + 12)%nat.
Proof.
  intros Hfuel. two_levels fuel Hfuel.
  destruct (parameterChanged_summary QT_VERSION buildCCToWidgetMap fuel offset len pw w)
    as (w' & logged & frames & Hw' & Sm & _ & Hlen & Hlog).
  destruct Sm as (_ & Hq & (delta & Hd & Hc) & _).
  exists w', delta, frames.
  split; [exact Hw'|].
  split; [rewrite <- fuel_irrelevant with (fuel := fuel); exact Hw'|].
  split; [apply fuel_one|].
  split; [exact Hd|].
  rewrite Hc, Hlog.
  split; [reflexivity|].
  split; [|split; [|split; [exact Hq|split; [exact Hlen|]]]].
  - cbn [tail]. destruct (_ && _); [|constructor].
    change (seqZ 17 11) with nameTail.
    apply Forall_fmap. eapply Forall_impl; [exact nameTail_not_name|].
    intros i Hi. exact Hi.
  - destruct (_ && _); simpl; lia.
  - rewrite Hq.
    pose proof (foldl_coalesceStep_length (sysExEvent <$> frames) (midiOutQueue w)) as Hb.
    rewrite length_fmap in Hb. lia.
Qed.

Lemma parameterChanged_terminates_witness :
  (2 <= 5)%nat
  /\ exists w',
       parameterChanged Sample.qtVersion Sample.buildCC 5 PatchName 12 Sample.unfocused
         Sample.busyWindow = Some w'
       /\ parameterChanged Sample.qtVersion Sample.buildCC 2 PatchName 12 Sample.unfocused
            Sample.busyWindow = Some w'
       /\ (length (midiOutQueue w') <= length (midiOutQueue Sample.busyWindow) + 12)%nat.
Proof.
  split; [lia|].
  destruct (parameterChanged_terminates Sample.qtVersion Sample.buildCC 5 PatchName 12
              Sample.unfocused Sample.busyWindow ltac:(lia))
    as (w' & delta & frames & H5 & H2 & _ & _ & _ & _ & _ & _ & _ & Hb).
  exists w'. split; [exact H5|]. split; [exact H2 | exact Hb].
Defined.

(** * Further properties of the checksum *)

Lemma signed_sum_app (p q : QByteArray) :
  signed_sum (p ++ q) = signed_sum p + signed_sum q.
Proof.
  unfold signed_sum. induction p as [|c p IH]; simpl; [reflexivity|].
  rewrite IH. lia.
Qed.

Lemma calcChecksum_mod (p : QByteArray) :
  calcChecksum p (QByteArray.size p) = (- signed_sum p) mod 128.
Proof.
  rewrite calcChecksum_spec. unfold checksum_spec. change 0x7F with 0x7f.
  apply land_7f.
Qed.

Lemma schar_mod_128 c : schar c mod 128 = uchar c mod 128.
Proof.
  unfold schar. destruct (Z.ltb_spec (uchar c) 128); [reflexivity|].
  replace (uchar c - 256) with (uchar c + (-2) * 128) by lia.
  apply Z.mod_add. lia.
Qed.

Lemma mod_128_cancel a x y :
  (- (a + x)) mod 128 = (- (a + y)) mod 128 <-> x mod 128 = y mod 128.
Proof.
  pose proof (Z.div_mod (- (a + x)) 128 ltac:(lia)).
  pose proof (Z.div_mod (- (a + y)) 128 ltac:(lia)).
  pose proof (Z.div_mod x 128 ltac:(lia)).
  pose proof (Z.div_mod y 128 ltac:(lia)).
  pose proof (Z.mod_pos_bound x 128 ltac:(lia)).
  pose proof (Z.mod_pos_bound y 128 ltac:(lia)).
  pose proof (Z.mod_pos_bound (- (a + x)) 128 ltac:(lia)).
  pose proof (Z.mod_pos_bound (- (a + y)) 128 ltac:(lia)).
  split; intros Heq.
  - assert (Hd : x - y = 128 * ((- (a + y)) / 128 - (- (a + x)) / 128)) by lia.
    assert (Hd' : x mod 128 - y mod 128
                  = 128 * ((- (a + y)) / 128 - (- (a + x)) / 128 - x / 128 + y / 128))
      by lia.
    lia.
  - assert (Hd : (- (a + x)) mod 128 - (- (a + y)) mod 128
                 = 128 * ((- (a + y)) / 128 - (- (a + x)) / 128 - x / 128 + y / 128))
      by lia.
    lia.
Qed.

Lemma unsigned_sum_mod_128 (p : QByteArray) :
  foldr (fun c acc => uchar c + acc) 0 p mod 128 = signed_sum p mod 128.
Proof.
  unfold signed_sum. induction p as [|c p IH]; simpl; [reflexivity|].
  rewrite Zplus_mod, IH, <- schar_mod_128, <- Zplus_mod. reflexivity.
Qed.

(** X1.  The payload octets, read as signed or as unsigned values, and the
    checksum add up to a multiple of 128: the test a receiver of the frame
    can make without negating anything. *)
Theorem calcChecksum_zero_sum (P : QByteArray) :
  (signed_sum P + calcChecksum P (QByteArray.size P)) mod 128 = 0
  /\ (foldr (fun c acc => uchar c + acc) 0 P + calcChecksum P (QByteArray.size P))
       mod 128 = 0.
Proof.
  assert (H1 : (signed_sum P + calcChecksum P (QByteArray.size P)) mod 128 = 0).
  { rewrite calcChecksum_mod, Zplus_mod_idemp_r.
    replace (signed_sum P + - signed_sum P) with 0 by lia. reflexivity. }
  split; [exact H1|].
  rewrite Zplus_mod, unsigned_sum_mod_128, <- Zplus_mod. exact H1.
Qed.

Lemma framed_length (p : QByteArray) (c t : byte) :
  length (sysExBulkHeader ++ p ++ [c] ++ [t]) = (length p + 10)%nat.
Proof.
  rewrite !length_app. simpl. lia.
Qed.

Lemma payloadOf_framed (p : QByteArray) (c t : byte) :
  payloadOf (sysExBulkHeader ++ p ++ [c] ++ [t]) = p.
Proof.
  unfold payloadOf. rewrite framed_length.
  change (drop 8 (sysExBulkHeader ++ ?r)) with r.
  replace (length p + 10 - 10)%nat with (length p) by lia.
  apply take_app_length.
Qed.

(** X2.  A bulk frame whose payload differs from the one the checksum was
    computed over in a single octet passes validation exactly when the two
    octets agree in their low seven bits: a change of any of those bits is
    caught, a change of bit 7 alone is not. *)
Theorem midiEvent_single_octet_change
    (process : QByteArray -> MainWindow -> MainWindow)
    (l1 l2 : QByteArray) (b b' : byte) (accepted : bool) (w : MainWindow) :
  3 <= QByteArray.size (l1 ++ b :: l2) ->
  passedValidation
    (exitOf (midiEvent process
               (mkMidiEvent MidiSysEx
                  (sysExBulkHeader ++ (l1 ++ b' :: l2)
                     ++ [to_char (calcChecksum (l1 ++ b :: l2)
                                    (QByteArray.size (l1 ++ b :: l2)))] ++ [xf7])
                  accepted) w)) = true
  <-> uchar b mod 128 = uchar b' mod 128.
Proof.
  intros Hlen.
  assert (Hsz : QByteArray.size (l1 ++ b' :: l2) = QByteArray.size (l1 ++ b :: l2)).
  { unfold QByteArray.size. rewrite !length_app. reflexivity. }
  assert (Hcs : calcChecksum (l1 ++ b :: l2) (QByteArray.size (l1 ++ b :: l2))
                = calcChecksum (l1 ++ b' :: l2) (QByteArray.size (l1 ++ b' :: l2))
                <-> uchar b mod 128 = uchar b' mod 128).
  { rewrite !calcChecksum_mod, !signed_sum_app.
    change (signed_sum (b :: l2)) with (schar b + signed_sum l2).
    change (signed_sum (b' :: l2)) with (schar b' + signed_sum l2).
    replace (signed_sum l1 + (schar b + signed_sum l2))
      with ((signed_sum l1 + signed_sum l2) + schar b) by lia.
    replace (signed_sum l1 + (schar b' + signed_sum l2))
      with ((signed_sum l1 + signed_sum l2) + schar b') by lia.
    rewrite mod_128_cancel, !schar_mod_128. reflexivity. }
  rewrite midiEvent_passes_iff by reflexivity. cbn [sysExData].
  set (cs := calcChecksum (l1 ++ b :: l2) _) in *.
  set (p' := l1 ++ b' :: l2) in *.
  split.
  - intros (_ & _ & _ & Hc). apply Hcs.
    rewrite payloadOf_framed, framed_length in Hc.
    replace (length p' + 10 - 2)%nat with (length (sysExBulkHeader ++ p')) in Hc
      by (rewrite length_app; simpl; lia).
    destruct (lookup_last_two (sysExBulkHeader ++ p') (to_char cs) xf7) as [H2 _].
    rewrite <- app_assoc in H2. change ([to_char cs; xf7]) with ([to_char cs] ++ [xf7]) in H2.
    rewrite H2 in Hc. injection Hc as Hc.
    apply (f_equal schar) in Hc.
    rewrite !schar_to_char_small in Hc
      by (pose proof (calcChecksum_range p' (QByteArray.size p'));
          pose proof (calcChecksum_range (l1 ++ b :: l2) (QByteArray.size (l1 ++ b :: l2)));
          subst cs; lia).
    exact Hc.
  - intros Hb. apply Hcs in Hb. fold cs in Hb. rewrite Hb.
    apply bulkFrame_valid. subst p'. lia.
Qed.

Lemma midiEvent_single_octet_change_witness :
  3 <= QByteArray.size ([x01] ++ x02 :: [x03])
  /\ passedValidation
       (exitOf (midiEvent Sample.process
                  (mkMidiEvent MidiSysEx
                     (sysExBulkHeader ++ ([x01] ++ x82 :: [x03])
                        ++ [to_char (calcChecksum ([x01] ++ x02 :: [x03])
                                       (QByteArray.size ([x01] ++ x02 :: [x03])))]
                        ++ [xf7])
                     false) Sample.window)) = true.
Proof.
  assert (H : 3 <= QByteArray.size ([x01] ++ x02 :: [x03])) by (vm_compute; discriminate).
  split; [exact H|].
  apply (midiEvent_single_octet_change Sample.process [x01] [x03] x02 x82 false
           Sample.window H).
  reflexivity.
Defined.

Lemma signed_sum_Permutation (p q : QByteArray) :
  p ≡ₚ q -> signed_sum p = signed_sum q.
Proof.
  unfold signed_sum. induction 1; simpl; lia.
Qed.

(** X3.  The checksum does not see the order of the payload octets: a
    frame whose payload is a rearrangement of the one the checksum was
    computed over passes validation. *)
Theorem calcChecksum_permutation
    (process : QByteArray -> MainWindow -> MainWindow)
    (P Q : QByteArray) (accepted : bool) (w : MainWindow) :
  P ≡ₚ Q ->
  3 <= QByteArray.size P ->
  calcChecksum P (QByteArray.size P) = calcChecksum Q (QByteArray.size Q)
  /\ passedValidation
       (exitOf (midiEvent process
                  (mkMidiEvent MidiSysEx
                     (sysExBulkHeader ++ Q
                        ++ [to_char (calcChecksum P (QByteArray.size P))] ++ [xf7])
                     accepted) w)) = true.
Proof.
  intros Hp Hlen.
  assert (Hcs : calcChecksum P (QByteArray.size P) = calcChecksum Q (QByteArray.size Q)).
  { rewrite !calcChecksum_mod, (signed_sum_Permutation P Q Hp). reflexivity. }
  split; [exact Hcs|].
  apply midiEvent_passes_iff; [reflexivity|]. cbn [sysExData]. rewrite Hcs.
  apply bulkFrame_valid. unfold QByteArray.size in *.
  rewrite <- (Permutation_length Hp). exact Hlen.
Qed.

Lemma calcChecksum_permutation_witness :
  [x01; x02; x03] ≡ₚ [x03; x01; x02]
  /\ 3 <= QByteArray.size [x01; x02; x03]
  /\ calcChecksum [x01; x02; x03] 3 = calcChecksum [x03; x01; x02] 3.
Proof.
  assert (Hp : [x01; x02; x03] ≡ₚ [x03; x01; x02]).
  { change [x03; x01; x02] with ([x03] ++ [x01; x02]).
    change [x01; x02; x03] with ([x01; x02] ++ [x03]).
    apply Permutation_app_comm. }
  assert (Hl : 3 <= QByteArray.size [x01; x02; x03]) by (vm_compute; discriminate).
  split; [exact Hp|]. split; [exact Hl|].
  exact (proj1 (calcChecksum_permutation Sample.process _ _ false Sample.window Hp Hl)).
Defined.

(** X4.  The checksum of a payload made of two parts is the sum of the
    checksums of the parts, modulo 128.  The function reads the first
    [dataLength] octets only, so what follows them in memory does not
    matter, and a length of zero or less yields 0. *)
Theorem calcChecksum_compose (P Q : QByteArray) (k : nat) :
  calcChecksum (P ++ Q) (QByteArray.size (P ++ Q))
  = (calcChecksum P (QByteArray.size P) + calcChecksum Q (QByteArray.size Q)) mod 128
  /\ calcChecksum (P ++ Q) (QByteArray.size P) = calcChecksum P (QByteArray.size P)
  /\ calcChecksum P (- Z.of_nat k) = 0.
Proof.
  split; [|split].
  - rewrite !calcChecksum_mod, signed_sum_app, <- Zplus_mod. f_equal. lia.
  - rewrite (calcChecksum_take (P ++ Q)). unfold QByteArray.size.
    rewrite Nat2Z.id, take_app_length. reflexivity.
  - unfold calcChecksum. replace (Z.to_nat (- Z.of_nat k)) with 0%nat by lia.
    reflexivity.
Qed.

(** * Further properties of [midiEvent] *)

(** X5.  [midiEvent] marks the event accepted as soon as the length and
    header checks pass, before the terminator and the checksum are looked
    at: an event that leaves at one of the later exits is accepted, one that
    leaves at an earlier exit keeps the flag it came with.  Type and data of
    the event are never changed. *)
Theorem midiEvent_accept_flag
    (process : QByteArray -> MainWindow -> MainWindow)
    (ev : MidiEvent) (w : MainWindow) :
  evType (eventOf (midiEvent process ev w)) = evType ev
  /\ sysExData (eventOf (midiEvent process ev w)) = sysExData ev
  /\ isAccepted (eventOf (midiEvent process ev w))
     = match exitOf (midiEvent process ev w) with
       | ExitNotSysEx | ExitTooShort | ExitWrongHeader => isAccepted ev
       | _ => true
       end
  /\ (exitOf (midiEvent process ev w) = ExitNoTerminator
      \/ exitOf (midiEvent process ev w) = ExitChecksumError ->
      isAccepted (eventOf (midiEvent process ev w)) = true
      /\ passedValidation (exitOf (midiEvent process ev w)) = false).
Proof.
  unfold midiEvent, eventOf, exitOf.
  repeat (match goal with |- context [if ?b then _ else _] => destruct b end;
          cbn [fst snd accept evType sysExData isAccepted passedValidation]);
    (split; [reflexivity|]); (split; [reflexivity|]); (split; [reflexivity|]);
    intros [Hx | Hx]; solve [discriminate Hx | split; reflexivity].
Qed.

Lemma midiEvent_accept_flag_witness :
  exitOf (midiEvent Sample.process
            (Sample.inbound (sysExBulkHeader ++ [x01; x02; x03; x00; xf7]))
            Sample.window) = ExitChecksumError
  /\ isAccepted (eventOf (midiEvent Sample.process
                    (Sample.inbound (sysExBulkHeader ++ [x01; x02; x03; x00; xf7]))
                    Sample.window)) = true.
Proof.
  split; [reflexivity|].
  exact (proj1 (proj2 (proj2 (proj2
           (midiEvent_accept_flag Sample.process
              (Sample.inbound (sysExBulkHeader ++ [x01; x02; x03; x00; xf7]))
              Sample.window))) (or_intror eq_refl))).
Defined.

(** X6.  What [midiEvent] does to the window is fixed by the exit taken:
    nothing at all when the event is not SysEx, too short, has a wrong
    header or lacks the terminator (these are dropped without a debug line),
    one debug line and nothing else on a checksum error or on unexpected
    data.  In particular no rejected frame touches the outbound queue, the
    timer or the pending value. *)
Theorem midiEvent_window_by_exit
    (process : QByteArray -> MainWindow -> MainWindow)
    (ev : MidiEvent) (w : MainWindow) :
  windowOf (midiEvent process ev w)
  = match exitOf (midiEvent process ev w) with
    | ExitChecksumError => qDebug DbgChecksumError w
    | ExitUnexpectedData => qDebug DbgUnexpectedData w
    | ExitProcessed => process (sysExData ev) w
    | _ => w
    end
  /\ (exitOf (midiEvent process ev w) <> ExitProcessed ->
      midiOutQueue (windowOf (midiEvent process ev w)) = midiOutQueue w
      /\ midiOutTimer (windowOf (midiEvent process ev w)) = midiOutTimer w
      /\ tmpArray (windowOf (midiEvent process ev w)) = tmpArray w
      /\ newPatchDataList (windowOf (midiEvent process ev w)) = newPatchDataList w).
Proof.
  unfold midiEvent, windowOf, exitOf.
  repeat (match goal with |- context [if ?b then _ else _] => destruct b end;
          cbn [fst snd]);
    (split; [reflexivity|]); intros H; try (repeat split; reflexivity);
    contradiction.
Qed.

Lemma midiEvent_window_by_exit_witness :
  exitOf (midiEvent Sample.process (Sample.inbound (bulkFrame Sample.payload3))
            Sample.busyWindow) <> ExitProcessed
  /\ midiOutQueue (windowOf (midiEvent Sample.process
                               (Sample.inbound (bulkFrame Sample.payload3))
                               Sample.busyWindow))
     = midiOutQueue Sample.busyWindow.
Proof.
  assert (H : exitOf (midiEvent Sample.process (Sample.inbound (bulkFrame Sample.payload3))
                        Sample.busyWindow) <> ExitProcessed)
    by (vm_compute; discriminate).
  split; [exact H|].
  exact (proj1 (proj2 (midiEvent_window_by_exit Sample.process
                         (Sample.inbound (bulkFrame Sample.payload3))
                         Sample.busyWindow) H)).
Defined.

(** X7.  No frame built by [parameterChanged] is taken for a bulk dump:
    fed back into [midiEvent] it never passes validation, whatever its
    offset, length and data; it leaves at the length or at the header
    check, unaccepted and without a trace in the window. *)
Theorem parameterSendFrame_never_validates
    (process : QByteArray -> MainWindow -> MainWindow)
    (offset len : Z) (data : QByteArray) (accepted : bool) (w : MainWindow) :
  passedValidation
    (exitOf (midiEvent process
               (mkMidiEvent MidiSysEx (parameterSendFrame offset len data) accepted) w))
  = false
  /\ (exitOf (midiEvent process
                (mkMidiEvent MidiSysEx (parameterSendFrame offset len data) accepted) w)
      = ExitTooShort
      \/ exitOf (midiEvent process
                   (mkMidiEvent MidiSysEx (parameterSendFrame offset len data) accepted) w)
         = ExitWrongHeader)
  /\ windowOf (midiEvent process
                 (mkMidiEvent MidiSysEx (parameterSendFrame offset len data) accepted) w)
     = w
  /\ isAccepted (eventOf (midiEvent process
                   (mkMidiEvent MidiSysEx (parameterSendFrame offset len data) accepted) w))
     = accepted.
Proof.
  rewrite parameterSendFrame_shape.
  set (k := (sectionOf offset, addressOf offset)).
  set (vals := _ <$> _).
  unfold midiEvent, exitOf, windowOf, eventOf.
  cbn [evType isMidiSysEx negb sysExData].
  destruct (QByteArray.size (paramFrame k vals) <? 13);
    [cbn; repeat split; auto|].
  assert (Hh : QByteArray.eqb (QByteArray.left sysExBulkHeaderLength (paramFrame k vals))
                              sysExBulkHeader = false) by reflexivity.
  rewrite Hh. cbn. repeat split; auto.
Qed.

(** * Further properties of [parameterChanged] *)

Lemma values_are_mid (data : QByteArray) offset len :
  0 <= offset -> 0 <= len -> offset + len <= QByteArray.size data ->
  (fun i => QByteArray.at_ data (offset + i)) <$> seqZ 0 len
  = QByteArray.mid offset len data.
Proof.
  intros Ho Hl Hs. unfold QByteArray.mid, QByteArray.size in *.
  apply list_eq. intros i.
  rewrite list_lookup_fmap.
  destruct (decide (Z.of_nat i < len)) as [Hi | Hi].
  - rewrite lookup_seqZ_lt by lia. simpl.
    rewrite lookup_take_lt by lia. rewrite lookup_drop.
    rewrite <- (at_lookup data (offset + (0 + Z.of_nat i)))
      by (unfold QByteArray.size; lia).
    f_equal. lia.
  - rewrite lookup_seqZ_ge by lia. simpl.
    symmetry. apply lookup_ge_None. rewrite length_take. lia.
Qed.

Lemma parameterSendFrame_mid (offset len : Z) (data : QByteArray) :
  0 <= offset -> 0 <= len -> offset + len <= QByteArray.size data ->
  parameterSendFrame offset len data
  = keyPrefix (sectionOf offset) (addressOf offset)
      ++ QByteArray.mid offset len data ++ [xf7]
  /\ valueBytes (parameterSendFrame offset len data) = QByteArray.mid offset len data
  /\ QByteArray.size (parameterSendFrame offset len data) = 10 + len.
Proof.
  intros Ho Hl Hs.
  rewrite parameterSendFrame_shape, (values_are_mid data offset len Ho Hl Hs).
  split; [reflexivity|]. split; [apply valueBytes_paramFrame|].
  unfold QByteArray.size. rewrite paramFrame_length.
  unfold QByteArray.mid, QByteArray.size in *. rewrite length_take, length_drop. lia.
Qed.

(** X8.  Let [n] be the length a call works with: 1 when the offset is
    [PatchName], the length passed otherwise.  When the edit widget exists
    and [offset] and [n] address octets inside its array, the frame the
    call puts into the queue for its offset carries exactly those octets,
    in order, between the nine-octet prefix and the closing [F7], and is
    [10 + n] octets long; for an offset other than [PatchName] it is the
    last entry of the queue when the call returns. *)
Theorem parameterChanged_frame_values
    (QT_VERSION : Z) (buildCCToWidgetMap : MainWindow -> list (Z * widgetWithVal))
    (fuel : nat) (offset len : Z) (pw : QWidget) (w : MainWindow)
    (e : ArrayDataEditWidget) :
  let n := if offset =? PatchName then 1 else len in
  let frame := keyPrefix (sectionOf offset) (addressOf offset)
                 ++ QByteArray.mid offset n (DataArray w e) ++ [xf7] in
  editWidget w = Some e -> (2 <= fuel)%nat ->
  0 <= offset -> 0 <= n -> offset + n <= QByteArray.size (DataArray w e) ->
  exists w',
    parameterChanged QT_VERSION buildCCToWidgetMap fuel offset len pw w = Some w'
    /\ In (sysExEvent frame) (midiOutQueue w')
    /\ (offset <> PatchName -> last (midiOutQueue w') = Some (sysExEvent frame))
    /\ valueBytes frame = QByteArray.mid offset n (DataArray w e)
    /\ QByteArray.size frame = 10 + n.
Proof.
  intros n frame He Hfuel Ho Hn Hs. two_levels fuel Hfuel.
  destruct (parameterSendFrame_mid offset n (DataArray w e) Ho Hn Hs) as (Hf & Hv & Hl).
  fold frame in Hf. rewrite Hf in Hv, Hl.
  destruct (enqueued_in_queue QT_VERSION buildCCToWidgetMap fuel offset len pw w e He)
    as (w' & Hw' & Hin).
  fold n in Hin. rewrite Hf in Hin.
  exists w'. split; [exact Hw'|]. split; [exact Hin|].
  split; [|split; [exact Hv | exact Hl]].
  intros Hne.
  destruct (plain_call_summary QT_VERSION buildCCToWidgetMap (S fuel) offset len pw w e
              He Hne) as (w1 & Hw1 & (_ & Hq & _)).
  rewrite Hw' in Hw1. injection Hw1 as <-.
  rewrite Hq. cbn [fmap list_fmap foldl]. unfold coalesceStep.
  rewrite last_snoc. do 2 f_equal. rewrite <- Hf. unfold n.
  destruct (Z.eqb_spec offset PatchName); [contradiction | reflexivity].
Qed.

Lemma parameterChanged_frame_values_witness :
  editWidget Sample.window = Some (DataInPatchStore 0 3)
  /\ (2 <= 2)%nat
  /\ 0 <= PatchName
  /\ PatchName + 1 <= QByteArray.size (DataArray Sample.window (DataInPatchStore 0 3))
  /\ exists w',
       parameterChanged Sample.qtVersion Sample.buildCC 2 PatchName 12 Sample.focused
         Sample.window = Some w'
       /\ In (sysExEvent [xf0; x43; x7d; x40; x55; x42; x20; x00; x10; x10; xf7])
             (midiOutQueue w').
Proof.
  assert (Ho : 0 <= PatchName) by (unfold PatchName; lia).
  assert (Hs : PatchName + 1
               <= QByteArray.size (DataArray Sample.window (DataInPatchStore 0 3)))
    by (vm_compute; discriminate).
  split; [reflexivity|]. split; [lia|]. split; [exact Ho|]. split; [exact Hs|].
  destruct (parameterChanged_frame_values Sample.qtVersion Sample.buildCC 2 PatchName 12
              Sample.focused Sample.window (DataInPatchStore 0 3)
              eq_refl (le_n 2) Ho ltac:(simpl; lia) Hs)
    as (w' & Hw' & Hin & _).
  exists w'. split; [exact Hw' | exact Hin].
Defined.

Lemma key_injective o1 o2 :
  0 <= o1 < PatchTotalLength -> 0 <= o2 < PatchTotalLength ->
  (sectionOf o1, addressOf o1) = (sectionOf o2, addressOf o2) -> o1 = o2.
Proof.
  unfold sectionOf, addressOf, PatchTotalLength, PatchCommonLength, PatchEffectLength.
  intros H1 H2.
  destruct (Z.ltb_spec o1 32), (Z.ltb_spec o2 32); intros Heq;
    try discriminate Heq;
    apply (f_equal snd) in Heq; cbn [snd] in Heq;
    apply (f_equal uchar) in Heq; rewrite !uchar_to_char, !Z.mod_small in Heq by lia; lia.
Qed.

(** X9.  Within the patch, [0 <= offset < 159], two offsets never share a
    (section, address): the frame of a later call supersedes a queued frame
    exactly when both were built for the same offset. *)
Theorem supersededBy_same_offset (o1 o2 l1 l2 : Z) (d1 d2 : QByteArray) :
  0 <= o1 < PatchTotalLength -> 0 <= o2 < PatchTotalLength ->
  supersededBy (parameterSendFrame o1 l1 d1) (sysExEvent (parameterSendFrame o2 l2 d2))
  = true
  <-> o1 = o2.
Proof.
  intros H1 H2. rewrite !parameterSendFrame_shape, supersededBy_paramFrame.
  rewrite matchesKey_paramFrame. split.
  - apply key_injective; assumption.
  - intros ->. reflexivity.
Qed.

Lemma supersededBy_same_offset_witness :
  0 <= 31 < PatchTotalLength /\ 0 <= 32 < PatchTotalLength
  /\ supersededBy (parameterSendFrame 31 1 Sample.patch)
       (sysExEvent (parameterSendFrame 32 1 Sample.patch)) <> true.
Proof.
  assert (H1 : 0 <= 31 < PatchTotalLength)
    by (unfold PatchTotalLength, PatchCommonLength, PatchEffectLength; lia).
  assert (H2 : 0 <= 32 < PatchTotalLength)
    by (unfold PatchTotalLength, PatchCommonLength, PatchEffectLength; lia).
  split; [exact H1|]. split; [exact H2|].
  intros H.
  apply (supersededBy_same_offset 31 32 1 1 Sample.patch Sample.patch H1 H2) in H.
  discriminate H.
Defined.

Section Composition.

Variable QT_VERSION : Z.
Variable buildCCToWidgetMap : MainWindow -> list (Z * widgetWithVal).

Local Notation "'parameterChanged''" := (parameterChanged QT_VERSION buildCCToWidgetMap).

(** Two plain calls in a row, as one summary. *)
Lemma two_plain_calls f1 f2 o1 o2 l1 l2 pw1 pw2 w e :
  editWidget w = Some e -> o1 <> PatchName -> o2 <> PatchName ->
  exists w1 w2,
    parameterChanged' (S f1) o1 l1 pw1 w = Some w1
    /\ parameterChanged' (S f2) o2 l2 pw2 w1 = Some w2
    /\ editWidget w1 = Some e
    /\ midiOutQueue w1
       = coalesceStep (midiOutQueue w) (sysExEvent (parameterSendFrame o1 l1 (DataArray w e)))
    /\ midiOutQueue w2
       = coalesceStep (midiOutQueue w1)
           (sysExEvent (parameterSendFrame o2 l2 (DataArray w1 e))).
Proof.
  intros He H1 H2.
  destruct (plain_call_summary QT_VERSION buildCCToWidgetMap f1 o1 l1 pw1 w e He H1)
    as (w1 & Hw1 & (He1 & Hq1 & _)).
  rewrite He in He1.
  destruct (plain_call_summary QT_VERSION buildCCToWidgetMap f2 o2 l2 pw2 w1 e He1 H2)
    as (w2 & Hw2 & (_ & Hq2 & _)).
  exists w1, w2. repeat split; assumption.
Qed.

End Composition.

(** X10.  Two calls in a row for the same offset (other than [PatchName])
    leave one frame for it, the one of the second call, at the tail; the
    frame of the first call is discarded and the queue is as long as it was
    after the first call.  Entries for other addresses keep their order. *)
Theorem parameterChanged_twice_same_offset
    (QT_VERSION : Z) (buildCCToWidgetMap : MainWindow -> list (Z * widgetWithVal))
    (fuel : nat) (offset l1 l2 : Z) (pw1 pw2 : QWidget) (w : MainWindow)
    (e : ArrayDataEditWidget) :
  editWidget w = Some e -> offset <> PatchName -> (2 <= fuel)%nat ->
  exists w1 w2,
    parameterChanged QT_VERSION buildCCToWidgetMap fuel offset l1 pw1 w = Some w1
    /\ parameterChanged QT_VERSION buildCCToWidgetMap fuel offset l2 pw2 w1 = Some w2
    /\ midiOutQueue w2
       = List.filter (fun ev => negb (matchesKey (sectionOf offset) (addressOf offset) ev))
                     (midiOutQueue w)
         ++ [sysExEvent (parameterSendFrame offset l2 (DataArray w1 e))]
    /\ length (midiOutQueue w2) = length (midiOutQueue w1).
Proof.
  intros He Hne Hfuel. two_levels fuel Hfuel.
  destruct (two_plain_calls QT_VERSION buildCCToWidgetMap (S fuel) (S fuel)
              offset offset l1 l2 pw1 pw2 w e He Hne Hne)
    as (w1 & w2 & Hw1 & Hw2 & _ & Hq1 & Hq2).
  exists w1, w2. split; [exact Hw1|]. split; [exact Hw2|].
  rewrite parameterSendFrame_shape in Hq1, Hq2 |- *.
  rewrite coalesceStep_paramFrame in Hq1, Hq2. cbn [fst snd] in Hq1, Hq2.
  set (k := matchesKey (sectionOf offset) (addressOf offset)) in *.
  assert (Hf : List.filter (fun ev => negb (k ev)) (midiOutQueue w1)
               = List.filter (fun ev => negb (k ev)) (midiOutQueue w)).
  { rewrite Hq1, List.filter_app. cbn [List.filter].
    assert (Hm : k (sysExEvent (paramFrame (sectionOf offset, addressOf offset)
                      ((fun i => QByteArray.at_ (DataArray w e) (offset + i))
                         <$> seqZ 0 l1))) = true)
      by (apply (matchesKey_paramFrame (sectionOf offset, addressOf offset)); reflexivity).
    rewrite Hm. cbn [negb]. rewrite app_nil_r.
    rewrite filter_filter_and. apply List.filter_ext. intros ev.
    destruct (k ev); reflexivity. }
  split.
  - rewrite Hq2, Hf. reflexivity.
  - rewrite Hq2, Hf, Hq1, !length_app. reflexivity.
Qed.

Lemma parameterChanged_twice_same_offset_witness :
  editWidget Sample.window = Some (DataInPatchStore 0 3) /\ 5 <> PatchName
  /\ (2 <= 2)%nat
  /\ exists w1 w2,
       parameterChanged Sample.qtVersion Sample.buildCC 2 5 1 Sample.focused
         Sample.window = Some w1
       /\ parameterChanged Sample.qtVersion Sample.buildCC 2 5 2 Sample.focused w1
          = Some w2
       /\ length (midiOutQueue w2) = length (midiOutQueue w1).
Proof.
  assert (Hne : 5 <> PatchName) by discriminate.
  split; [reflexivity|]. split; [exact Hne|]. split; [lia|].
  destruct (parameterChanged_twice_same_offset Sample.qtVersion Sample.buildCC 2 5 1 2
              Sample.focused Sample.focused Sample.window (DataInPatchStore 0 3)
              eq_refl Hne (le_n 2)) as (w1 & w2 & H1 & H2 & _ & Hl).
  exists w1, w2. split; [exact H1|]. split; [exact H2 | exact Hl].
Defined.

(** X11.  Two calls in a row for different offsets of the patch (neither
    of them [PatchName]) leave both frames at the tail of the queue in the
    order of the calls, after the earlier entries for neither address. *)
Theorem parameterChanged_two_offsets
    (QT_VERSION : Z) (buildCCToWidgetMap : MainWindow -> list (Z * widgetWithVal))
    (fuel : nat) (o1 o2 l1 l2 : Z) (pw1 pw2 : QWidget) (w : MainWindow)
    (e : ArrayDataEditWidget) :
  editWidget w = Some e ->
  0 <= o1 < PatchTotalLength -> 0 <= o2 < PatchTotalLength ->
  o1 <> o2 -> o1 <> PatchName -> o2 <> PatchName ->
  (2 <= fuel)%nat ->
  exists w1 w2,
    parameterChanged QT_VERSION buildCCToWidgetMap fuel o1 l1 pw1 w = Some w1
    /\ parameterChanged QT_VERSION buildCCToWidgetMap fuel o2 l2 pw2 w1 = Some w2
    /\ midiOutQueue w2
       = List.filter (fun ev => negb (matchesKey (sectionOf o1) (addressOf o1) ev)
                                && negb (matchesKey (sectionOf o2) (addressOf o2) ev))
                     (midiOutQueue w)
         ++ [sysExEvent (parameterSendFrame o1 l1 (DataArray w e));
             sysExEvent (parameterSendFrame o2 l2 (DataArray w1 e))].
Proof.
  intros He Hr1 Hr2 Hdiff Hn1 Hn2 Hfuel. two_levels fuel Hfuel.
  destruct (two_plain_calls QT_VERSION buildCCToWidgetMap (S fuel) (S fuel)
              o1 o2 l1 l2 pw1 pw2 w e He Hn1 Hn2)
    as (w1 & w2 & Hw1 & Hw2 & _ & Hq1 & Hq2).
  exists w1, w2. split; [exact Hw1|]. split; [exact Hw2|].
  rewrite Hq2, Hq1. rewrite !parameterSendFrame_shape, !coalesceStep_paramFrame.
  cbn [fst snd]. rewrite List.filter_app, <- app_assoc. f_equal.
  - rewrite filter_filter_and. reflexivity.
  - cbn [List.filter].
    destruct (matchesKey (sectionOf o2) (addressOf o2)
                (sysExEvent (paramFrame (sectionOf o1, addressOf o1)
                   ((fun i => QByteArray.at_ (DataArray w e) (o1 + i)) <$> seqZ 0 l1))))
      eqn:Hm; [|reflexivity].
    apply (matchesKey_paramFrame (sectionOf o2, addressOf o2)) in Hm.
    exfalso. apply Hdiff. symmetry. apply key_injective; assumption.
Qed.

Lemma parameterChanged_two_offsets_witness :
  exists w1 w2,
    parameterChanged Sample.qtVersion Sample.buildCC 2 5 1 Sample.focused
      Sample.window = Some w1
    /\ parameterChanged Sample.qtVersion Sample.buildCC 2 40 2 Sample.focused w1
       = Some w2
    /\ length (midiOutQueue w2) = 2%nat.
Proof.
  assert (H1 : 0 <= 5 < PatchTotalLength)
    by (unfold PatchTotalLength, PatchCommonLength, PatchEffectLength; lia).
  assert (H2 : 0 <= 40 < PatchTotalLength)
    by (unfold PatchTotalLength, PatchCommonLength, PatchEffectLength; lia).
  destruct (parameterChanged_two_offsets Sample.qtVersion Sample.buildCC 2 5 40 1 2
              Sample.focused Sample.focused Sample.window (DataInPatchStore 0 3)
              eq_refl H1 H2 ltac:(discriminate) ltac:(discriminate) ltac:(discriminate)
              (le_n 2)) as (w1 & w2 & Hw1 & Hw2 & Hq).
  exists w1, w2. split; [exact Hw1|]. split; [exact Hw2|].
  rewrite Hq, length_app. reflexivity.
Defined.

Lemma startsWith_app_l (a p r : QByteArray) :
  QByteArray.startsWith a (p ++ r) = true -> QByteArray.startsWith a p = true.
Proof.
  revert a. induction p as [|y p IH]; intros a; simpl; [reflexivity|].
  destruct a as [|x a]; [discriminate|].
  rewrite !andb_true_iff. intros [Hx Hr]. split; [exact Hx | apply IH, Hr].
Qed.

Lemma matchesKey_isParameterSend s a ev :
  matchesKey s a ev = true -> isParameterSend ev = true.
Proof.
  unfold matchesKey, isParameterSend, keyPrefix. intros H.
  apply (startsWith_app_l _ (sysExParameterSendHeader ++ [x20]) [s; a]).
  rewrite <- app_assoc. exact H.
Qed.

Lemma coalesceStep_foreign q k vals :
  List.filter (fun ev => negb (isParameterSend ev))
              (coalesceStep q (sysExEvent (paramFrame k vals)))
  = List.filter (fun ev => negb (isParameterSend ev)) q.
Proof.
  rewrite coalesceStep_paramFrame, List.filter_app.
  assert (Hp : isParameterSend (sysExEvent (paramFrame k vals)) = true) by reflexivity.
  cbn [List.filter]. rewrite Hp. cbn [negb]. rewrite app_nil_r.
  rewrite filter_filter_and. apply List.filter_ext. intros ev.
  destruct (matchesKey k.1 k.2 ev) eqn:Hm; [|reflexivity].
  rewrite (matchesKey_isParameterSend _ _ _ Hm). reflexivity.
Qed.

Lemma foldl_coalesceStep_foreign keys frames q :
  framesFor keys frames ->
  List.filter (fun ev => negb (isParameterSend ev))
              (foldl coalesceStep q (sysExEvent <$> frames))
  = List.filter (fun ev => negb (isParameterSend ev)) q.
Proof.
  intros H. revert q. induction H as [|k f keys frames [vals ->] _ IH]; intros q.
  - reflexivity.
  - simpl. rewrite IH. apply coalesceStep_foreign.
Qed.

(** X12.  [parameterChanged] removes nothing from the queue but
    parameter-send frames: the entries whose data does not begin with
    [F0 43 7D 40 55 42 20] (a dump request or a bulk dump waiting to be
    sent, say) are the same after every call, in the same order; and the
    call adds no such entry. *)
Theorem parameterChanged_keeps_foreign_entries
    (QT_VERSION : Z) (buildCCToWidgetMap : MainWindow -> list (Z * widgetWithVal))
    (fuel : nat) (offset len : Z) (pw : QWidget) (w : MainWindow) :
  (2 <= fuel)%nat ->
  exists w',
    parameterChanged QT_VERSION buildCCToWidgetMap fuel offset len pw w = Some w'
    /\ List.filter (fun ev => negb (isParameterSend ev)) (midiOutQueue w')
       = List.filter (fun ev => negb (isParameterSend ev)) (midiOutQueue w).
Proof.
  intros Hfuel. two_levels fuel Hfuel.
  destruct (parameterChanged_summary QT_VERSION buildCCToWidgetMap fuel offset len pw w)
    as (w' & logged & frames & Hw' & (_ & Hq & _) & (keys & Hk) & _).
  exists w'. split; [exact Hw'|]. rewrite Hq.
  apply (foldl_coalesceStep_foreign keys frames _ Hk).
Qed.

Lemma parameterChanged_keeps_foreign_entries_witness :
  (2 <= 2)%nat
  /\ exists w',
       parameterChanged Sample.qtVersion Sample.buildCC 2 PatchName 12 Sample.focused
         (set_midiOutQueue
            (sysExEvent dumpRequestHeader :: midiOutQueue Sample.busyWindow)
            Sample.busyWindow) = Some w'
       /\ List.filter (fun ev => negb (isParameterSend ev)) (midiOutQueue w')
          = [sysExEvent dumpRequestHeader].
Proof.
  split; [lia|].
  destruct (parameterChanged_keeps_foreign_entries Sample.qtVersion Sample.buildCC 2
              PatchName 12 Sample.focused
              (set_midiOutQueue
                 (sysExEvent dumpRequestHeader :: midiOutQueue Sample.busyWindow)
                 Sample.busyWindow) (le_n 2)) as (w' & Hw' & Hf).
  exists w'. split; [exact Hw'|]. rewrite Hf. reflexivity.
Defined.

Section Timer.

Variable QT_VERSION : Z.
Variable buildCCToWidgetMap : MainWindow -> list (Z * widgetWithVal).

Local Notation "'parameterChanged''" := (parameterChanged QT_VERSION buildCCToWidgetMap).

Lemma timerAfterEnqueue_active t : isActive (timerAfterEnqueue t) = true.
Proof.
  unfold timerAfterEnqueue. destruct (isActive t) eqn:E; [exact E | reflexivity].
Qed.

Lemma timerAfterEnqueue_idem t : timerAfterEnqueue (timerAfterEnqueue t) = timerAfterEnqueue t.
Proof.
  unfold timerAfterEnqueue at 1. rewrite timerAfterEnqueue_active. reflexivity.
Qed.

Lemma coalesceAndEnqueue_timer midiev w :
  midiOutTimer (coalesceAndEnqueue QT_VERSION midiev w)
  = timerAfterEnqueue (midiOutTimer w).
Proof.
  unfold coalesceAndEnqueue.
  destruct (eraseSuperseded (sysExData midiev) (midiOutQueue w)) as [kept dbg].
  destruct (qDebugs_fields dbg (set_midiOutQueue kept w)) as (_ & _ & Ht & _).
  set (w1 := qDebugs dbg _) in *. simpl in Ht.
  unfold startTimerIfIdle, timerAfterEnqueue.
  destruct (0x050900 <=? QT_VERSION); simpl; rewrite Ht;
    destruct (isActive (midiOutTimer w)) eqn:Ha; simpl; rewrite ?Ht; reflexivity.
Qed.

Lemma finish_timer offset len pw w :
  midiOutTimer (refreshCCMap buildCCToWidgetMap pw (applyTmpArray offset len pw w))
  = midiOutTimer w.
Proof.
  unfold refreshCCMap, applyTmpArray.
  destruct (existsb _ _); destruct (_ && _); reflexivity.
Qed.

Lemma plain_call_timer fuel offset len pw w e w' :
  editWidget w = Some e -> offset <> PatchName ->
  parameterChanged' (S fuel) offset len pw w = Some w' ->
  midiOutTimer w' = timerAfterEnqueue (midiOutTimer w).
Proof.
  intros He Hne Hw'.
  rewrite (parameterChanged_plain _ _ _ _ _ _ _ e He Hne) in Hw'. injection Hw' as <-.
  rewrite finish_timer, coalesceAndEnqueue_timer. reflexivity.
Qed.

Lemma loop_timer fuel pw e ixs :
  Forall (fun i => i <> PatchName) ixs ->
  forall w w', editWidget w = Some e ->
  isActive (midiOutTimer w) = true ->
  forEach (fun i => parameterChanged' (S fuel) i 1 pw) ixs w = Some w' ->
  midiOutTimer w' = midiOutTimer w.
Proof.
  induction 1 as [|i ixs Hi _ IH]; intros w w' He Ha Hw'.
  - injection Hw' as <-. reflexivity.
  - cbn [forEach] in Hw'.
    destruct (plain_call_summary QT_VERSION buildCCToWidgetMap fuel i 1 pw w e He Hi)
      as (w1 & Hw1 & (He1 & _)).
    rewrite Hw1 in Hw'.
    pose proof (plain_call_timer fuel i 1 pw w e w1 He Hi Hw1) as Ht.
    unfold timerAfterEnqueue in Ht. rewrite Ha in Ht.
    rewrite (IH w1 w'); [exact Ht | congruence | congruence | exact Hw'].
Qed.

Lemma name_call_timer fuel len pw w e w' :
  editWidget w = Some e ->
  parameterChanged' (S (S fuel)) PatchName len pw w = Some w' ->
  midiOutTimer w' = timerAfterEnqueue (midiOutTimer w).
Proof.
  intros He Hw'. rewrite (parameterChanged_name _ _ _ _ _ _ e He) in Hw'.
  set (w1 := coalesceAndEnqueue _ _ _) in Hw'.
  destruct (forLoop _ _ _ w1) as [w2|] eqn:Hloop; [|discriminate].
  injection Hw' as <-. rewrite finish_timer.
  assert (He1 : editWidget w1 = Some e).
  { destruct (coalesceAndEnqueue_fields QT_VERSION
                (sysExEvent (parameterSendFrame PatchName 1 (DataArray w e)))
                (nameBranch (qDebug (DbgParameterChanged PatchName len) w)))
      as ((Hce & _) & _).
    destruct (nameBranch_fields (qDebug (DbgParameterChanged PatchName len) w))
      as ((Hne & _) & _).
    subst w1. rewrite Hce, Hne. exact He. }
  assert (Ht1 : midiOutTimer w1 = timerAfterEnqueue (midiOutTimer w)).
  { subst w1. rewrite coalesceAndEnqueue_timer.
    destruct (nameBranch_fields (qDebug (DbgParameterChanged PatchName len) w))
      as (_ & _ & Hnt & _).
    rewrite Hnt. reflexivity. }
  unfold forLoop in Hloop. fold nameTail in Hloop.
  rewrite (loop_timer fuel pw e nameTail nameTail_not_name w1 w2 He1); [exact Ht1| |exact Hloop].
  rewrite Ht1. apply timerAfterEnqueue_active.
Qed.

End Timer.

(** X13.  Every call that enqueues (the edit widget exists) leaves the
    pacing timer running: a timer that was idle is started with a period of
    10 ms, a timer that was running keeps its period and is not restarted,
    also through the eleven further enqueues of a name call.  A call that
    finds no edit widget leaves the timer alone. *)
Theorem parameterChanged_timer
    (QT_VERSION : Z) (buildCCToWidgetMap : MainWindow -> list (Z * widgetWithVal))
    (fuel : nat) (offset len : Z) (pw : QWidget) (w : MainWindow) :
  (2 <= fuel)%nat ->
  exists w',
    parameterChanged QT_VERSION buildCCToWidgetMap fuel offset len pw w = Some w'
    /\ midiOutTimer w'
       = match editWidget w with
         | Some _ => timerAfterEnqueue (midiOutTimer w)
         | None => midiOutTimer w
         end
    /\ (editWidget w <> None -> isActive (midiOutTimer w') = true).
Proof.
  intros Hfuel. two_levels fuel Hfuel.
  destruct (parameterChanged_summary QT_VERSION buildCCToWidgetMap fuel offset len pw w)
    as (w' & logged & frames & Hw' & _).
  exists w'. split; [exact Hw'|].
  assert (Ht : midiOutTimer w'
               = match editWidget w with
                 | Some _ => timerAfterEnqueue (midiOutTimer w)
                 | None => midiOutTimer w
                 end).
  { destruct (editWidget w) as [e|] eqn:He.
    - destruct (Z.eq_dec offset PatchName) as [-> | Hne].
      + exact (name_call_timer QT_VERSION buildCCToWidgetMap fuel len pw w e w' He Hw').
      + exact (plain_call_timer QT_VERSION buildCCToWidgetMap (S fuel) offset len pw w e w'
                 He Hne Hw').
    - rewrite (parameterChanged_null _ _ _ _ _ _ _ He) in Hw'. injection Hw' as <-.
      reflexivity. }
  split; [exact Ht|].
  intros Hsome. rewrite Ht. destruct (editWidget w); [|contradiction].
  apply timerAfterEnqueue_active.
Qed.

Lemma parameterChanged_timer_witness :
  (2 <= 2)%nat
  /\ exists w',
       parameterChanged Sample.qtVersion Sample.buildCC 2 PatchName 12 Sample.focused
         Sample.window = Some w'
       /\ midiOutTimer w' = mkQTimer true 10.
Proof.
  split; [lia|].
  destruct (parameterChanged_timer Sample.qtVersion Sample.buildCC 2 PatchName 12
              Sample.focused Sample.window (le_n 2)) as (w' & Hw' & Ht & _).
  exists w'. split; [exact Hw' | exact Ht].
Defined.

Lemma forEach_cons {S : Type} (body : Z -> S -> option S) i ixs s :
  forEach body (i :: ixs) s
  = match body i s with
    | Some s' => forEach body ixs s'
    | None => None
    end.
Proof. reflexivity. Qed.

Section PendingName.

Variable QT_VERSION : Z.
Variable buildCCToWidgetMap : MainWindow -> list (Z * widgetWithVal).

Local Notation "'parameterChanged''" := (parameterChanged QT_VERSION buildCCToWidgetMap).

Lemma name_call_pending fuel len pw w e :
  editWidget w = Some e -> hasFocus pw = false -> tmpArray w <> [] ->
  exists w',
    parameterChanged' (S (S fuel)) PatchName len pw w = Some w'
    /\ newPatchDataList w'
       = <[currentPatchEdited w :=
             QByteArray.replace (PatchName + 1) 1 (tmpArray w)
               (patchAt w (currentPatchEdited w))]> (newPatchDataList w)
    /\ tmpArray w' = [].
Proof.
  intros He Hf Ht. rewrite (parameterChanged_name _ _ _ _ _ _ e He).
  set (w0 := nameBranch (qDebug (DbgParameterChanged PatchName len) w)).
  set (w1 := coalesceAndEnqueue QT_VERSION _ w0).
  assert (S1 : sameStore w w1).
  { destruct (nameBranch_fields (qDebug (DbgParameterChanged PatchName len) w)) as (Hs0 & _).
    destruct (coalesceAndEnqueue_fields QT_VERSION
                (sysExEvent (parameterSendFrame PatchName 1 (DataArray w e))) w0)
      as (Hs1 & _).
    eapply sameStore_trans; [|exact Hs1].
    eapply sameStore_trans; [|exact Hs0]. repeat split. }
  destruct S1 as (He1 & Hn1 & Hc1 & Hta1 & _).
  rewrite He in He1.
  pose proof nameTail_not_name as Hnt. unfold forLoop. fold nameTail.
  rewrite nameTail_eq in Hnt |- *.
  apply Forall_cons in Hnt as [H17 Hrest].
  rewrite forEach_cons.
  destruct (plain_call_summary QT_VERSION buildCCToWidgetMap fuel 17 1 pw w1 e He1 H17)
    as (w2 & Hw2 & (He2 & _)).
  rewrite Hw2.
  destruct (plain_call_commits QT_VERSION buildCCToWidgetMap fuel 17 1 pw w1 e w2
              He1 H17 Hf ltac:(congruence) Hw2) as [Hn2 Hta2].
  rewrite He1 in He2.
  destruct (loop_summary QT_VERSION buildCCToWidgetMap fuel pw e _ Hrest w2 He2)
    as (w3 & frames & Hw3 & _ & (_ & _ & _ & Hs3 & _)).
  rewrite Hw3.
  destruct (Hs3 (or_intror Hta2)) as [Hn3 Hta3].
  eexists. split; [reflexivity|].
  destruct (applyTmpArray_fields PatchName 1 pw w3) as (_ & _ & _ & _ & _ & _ & Ha).
  destruct (Ha (or_intror (eq_trans Hta3 Hta2))) as [Hn4 Hta4].
  destruct (refreshCCMap_fields buildCCToWidgetMap pw (applyTmpArray PatchName 1 pw w3))
    as ((_ & Rn & _ & Rt & _) & _).
  rewrite Rn, Rt, Hn4, Hta4, Hn3, Hta3, Hn2, Hta2.
  unfold patchAt. rewrite Hn1, Hc1, Hta1. split; reflexivity.
Qed.

End PendingName.

(** X14.  A call with offset [PatchName] made while the focus widget has
    no focus and a value is pending.  If the edit widget exists, the call
    does not write the pending value at the offset of the call: the first
    of the nested calls, the one for offset 17, replaces one octet at
    offset 17 of the edited patch by the whole of [tmpArray] and clears it,
    and the outer call then finds nothing left to write.  If there is no
    edit widget, the call returns before any of this: the store is as it
    was and the value stays pending. *)
Theorem parameterChanged_name_pending_value
    (QT_VERSION : Z) (buildCCToWidgetMap : MainWindow -> list (Z * widgetWithVal))
    (fuel : nat) (len : Z) (pw : QWidget) (w : MainWindow) :
  hasFocus pw = false -> tmpArray w <> [] ->
  (2 <= fuel)%nat ->
  exists w',
    parameterChanged QT_VERSION buildCCToWidgetMap fuel PatchName len pw w = Some w'
    /\ (editWidget w <> None ->
        newPatchDataList w'
        = <[currentPatchEdited w :=
              QByteArray.replace 17 1 (tmpArray w) (patchAt w (currentPatchEdited w))]>
            (newPatchDataList w)
        /\ tmpArray w' = [])
    /\ (editWidget w = None ->
        newPatchDataList w' = newPatchDataList w /\ tmpArray w' = tmpArray w).
Proof.
  intros Hf Ht Hfuel. two_levels fuel Hfuel.
  destruct (editWidget w) as [e|] eqn:He.
  - destruct (name_call_pending QT_VERSION buildCCToWidgetMap fuel len pw w e He Hf Ht)
      as (w' & Hw' & Hn).
    exists w'. split; [exact Hw'|]. split; [intros _; exact Hn | discriminate].
  - eexists. split; [apply parameterChanged_null; exact He|].
    split; [intros Hne; contradiction | intros _; split; reflexivity].
Qed.

Lemma parameterChanged_name_pending_value_witness :
  editWidget Sample.busyWindow <> None
  /\ hasFocus Sample.unfocused = false
  /\ tmpArray Sample.busyWindow <> []
  /\ (2 <= 2)%nat
  /\ exists w',
       parameterChanged Sample.qtVersion Sample.buildCC 2 PatchName 12 Sample.unfocused
         Sample.busyWindow = Some w'
       /\ QByteArray.mid PatchName 3 (patchAt w' (0, 3)) = [x10; x41; x12].
Proof.
  assert (He : editWidget Sample.busyWindow <> None) by discriminate.
  assert (Ht : tmpArray Sample.busyWindow <> []) by discriminate.
  split; [exact He|]. split; [reflexivity|]. split; [exact Ht|]. split; [lia|].
  destruct (parameterChanged_name_pending_value Sample.qtVersion Sample.buildCC 2 12
              Sample.unfocused Sample.busyWindow eq_refl Ht (le_n 2))
    as (w' & Hw' & Hn & _).
  exists w'. split; [exact Hw'|].
  unfold patchAt. rewrite (proj1 (Hn He)). vm_compute. reflexivity.
Defined.

(** * [MidiPortModel] *)

#[local] Set Warnings "-clear-no-such-hyp".

Section PortModel.

Variable alsa : list AlsaRequest -> AlsaRequest -> Z.

Lemma emitPortChanged_fields id m :
  direction (emitPortChanged id m) = direction m
  /\ portList (emitPortChanged id m) = portList m
  /\ connectionsCont (emitPortChanged id m) = connectionsCont m
  /\ alsaRequests (emitPortChanged id m) = alsaRequests m.
Proof.
  unfold emitPortChanged. destruct (_ <? _); repeat split.
Qed.

(** What [connectPorts] does when the port is not yet in the state asked
    for, in terms of the port it acts on. *)
Lemma connectPorts_changes srcId destId connected m :
  contains (ownPort m srcId destId) m = negb connected ->
  connectPorts alsa srcId destId connected m
  = askSequencer alsa
      (if connected then SubscribePort (alsaAddr srcId) (alsaAddr destId)
       else UnsubscribePort (alsaAddr srcId) (alsaAddr destId))
      (emitPortChanged (ownPort m srcId destId)
         (set_connectionsCont
            (if connected then {[ownPort m srcId destId]} ∪ connectionsCont m
             else connectionsCont m ∖ {[ownPort m srcId destId]}) m)).
Proof.
  unfold connectPorts, ownPort. intros H.
  destruct connected, (direction m); simpl in H; rewrite H; reflexivity.
Qed.

End PortModel.

(** X15.  Asking [connectPorts] for the state its port is already in (to
    connect a connected port, to disconnect one that is not connected) is
    answered [true] at once: the model is left as it is, no [dataChanged] is
    emitted and the sequencer is not asked.  The port in question is the
    source for a model of readable ports and the destination otherwise. *)
Theorem connectPorts_already
    (alsa : list AlsaRequest -> AlsaRequest -> Z)
    (srcId destId : MidiClientPortId) (connected : bool) (m : MidiPortModel) :
  contains (ownPort m srcId destId) m = connected ->
  connectPorts alsa srcId destId connected m = (true, m).
Proof.
  unfold connectPorts, ownPort. intros H.
  destruct connected, (direction m); rewrite H; reflexivity.
Qed.

Lemma connectPorts_already_witness :
  contains (ownPort PortSample.inputs (24, 0) (128, 0)) PortSample.inputs = true
  /\ connectPorts PortSample.refusing (24, 0) (128, 0) true PortSample.inputs
     = (true, PortSample.inputs).
Proof.
  assert (H : contains (ownPort PortSample.inputs (24, 0) (128, 0)) PortSample.inputs
              = true) by reflexivity.
  split; [exact H|].
  exact (connectPorts_already PortSample.refusing (24, 0) (128, 0) true
           PortSample.inputs H).
Defined.

(** X16.  When the port is not in the state asked for, [connectPorts]
    records the new state before it asks the sequencer and whatever the
    sequencer answers: afterwards the port is in [connectionsCont] exactly
    if a connection was asked for, also when the function returns [false].
    No other port changes, the port list and the direction stay, and the
    sequencer is asked once, with client and port numbers cut to eight
    bits. *)
Theorem connectPorts_records_state
    (alsa : list AlsaRequest -> AlsaRequest -> Z)
    (srcId destId : MidiClientPortId) (connected : bool) (m : MidiPortModel) :
  contains (ownPort m srcId destId) m = negb connected ->
  let r := connectPorts alsa srcId destId connected m in
  let id := ownPort m srcId destId in
  let req := if connected then SubscribePort (alsaAddr srcId) (alsaAddr destId)
             else UnsubscribePort (alsaAddr srcId) (alsaAddr destId) in
  contains id r.2 = connected
  /\ (forall other, other <> id -> contains other r.2 = contains other m)
  /\ r.1 = (alsa (alsaRequests m) req =? 0)
  /\ alsaRequests r.2 = alsaRequests m ++ [req]
  /\ portList r.2 = portList m
  /\ direction r.2 = direction m.
Proof.
  intros H r id req. subst r. rewrite (connectPorts_changes alsa _ _ _ _ H).
  fold id. fold req.
  set (c := if connected then {[id]} ∪ connectionsCont m else connectionsCont m ∖ {[id]}).
  destruct (emitPortChanged_fields id (set_connectionsCont c m)) as (Hd & Hp & Hc & Ha).
  unfold askSequencer, contains. cbn [fst snd connectionsCont alsaRequests portList direction].
  rewrite Hd, Hp, Hc, Ha. cbn [connectionsCont alsaRequests portList direction set_connectionsCont].
  split; [|split; [|repeat split]].
  - subst c. destruct connected.
    + apply bool_decide_eq_true. set_solver.
    + apply bool_decide_eq_false. set_solver.
  - intros other Hne. subst c. apply bool_decide_ext. destruct connected; set_solver.
Qed.

Lemma connectPorts_records_state_witness :
  contains (ownPort PortSample.inputs (20, 0) (128, 0)) PortSample.inputs = negb true
  /\ (connectPorts PortSample.refusing (20, 0) (128, 0) true PortSample.inputs).1 = false
  /\ contains (20, 0)
       (connectPorts PortSample.refusing (20, 0) (128, 0) true PortSample.inputs).2
     = true.
Proof.
  assert (H : contains (ownPort PortSample.inputs (20, 0) (128, 0)) PortSample.inputs
              = negb true) by reflexivity.
  split; [exact H|]. split; [reflexivity|].
  exact (proj1 (connectPorts_records_state PortSample.refusing (20, 0) (128, 0) true
                  PortSample.inputs H)).
Defined.

(** X17.  Connecting a port that was not connected and disconnecting it
    again gives back the set of connections there was, and the sequencer has
    been asked for the subscription and then for its removal. *)
Theorem connectPorts_round_trip
    (alsa : list AlsaRequest -> AlsaRequest -> Z)
    (srcId destId : MidiClientPortId) (m : MidiPortModel) :
  contains (ownPort m srcId destId) m = false ->
  let m1 := (connectPorts alsa srcId destId true m).2 in
  let m2 := (connectPorts alsa srcId destId false m1).2 in
  connectionsCont m2 = connectionsCont m
  /\ portList m2 = portList m
  /\ alsaRequests m2
     = alsaRequests m ++ [SubscribePort (alsaAddr srcId) (alsaAddr destId);
                          UnsubscribePort (alsaAddr srcId) (alsaAddr destId)].
Proof.
  intros H m1 m2.
  assert (Hnot : ownPort m srcId destId ∉ connectionsCont m).
  { unfold contains in H. apply bool_decide_eq_false in H. exact H. }
  assert (H1 : connectionsCont m1 = {[ownPort m srcId destId]} ∪ connectionsCont m
               /\ portList m1 = portList m /\ direction m1 = direction m
               /\ alsaRequests m1
                  = alsaRequests m ++ [SubscribePort (alsaAddr srcId) (alsaAddr destId)]).
  { subst m1. rewrite (connectPorts_changes alsa _ _ true m H).
    destruct (emitPortChanged_fields (ownPort m srcId destId)
                (set_connectionsCont ({[ownPort m srcId destId]} ∪ connectionsCont m) m))
      as (Hd & Hp & Hc & Ha).
    unfold askSequencer. cbn [snd connectionsCont alsaRequests portList direction].
    rewrite Hd, Hp, Hc, Ha. repeat split. }
  destruct H1 as (Hc1 & Hp1 & Hd1 & Ha1).
  assert (Hown : ownPort m1 srcId destId = ownPort m srcId destId)
    by (unfold ownPort; rewrite Hd1; reflexivity).
  assert (H2 : contains (ownPort m1 srcId destId) m1 = negb false).
  { unfold contains. rewrite Hown, Hc1. apply bool_decide_eq_true. set_solver. }
  subst m2. rewrite (connectPorts_changes alsa _ _ false m1 H2).
  destruct (emitPortChanged_fields (ownPort m1 srcId destId)
              (set_connectionsCont (connectionsCont m1 ∖ {[ownPort m1 srcId destId]}) m1))
    as (Hd & Hp & Hc & Ha).
  unfold askSequencer. cbn [snd connectionsCont alsaRequests portList direction].
  rewrite Hp, Hc, Ha. cbn [connectionsCont alsaRequests portList set_connectionsCont].
  rewrite Hown, Hc1, Hp1, Ha1, <- app_assoc.
  split; [set_solver|]. split; reflexivity.
Qed.

Lemma connectPorts_round_trip_witness :
  contains (ownPort PortSample.inputs (20, 0) (128, 0)) PortSample.inputs = false
  /\ connectionsCont
       (connectPorts PortSample.granting (20, 0) (128, 0) false
          (connectPorts PortSample.granting (20, 0) (128, 0) true PortSample.inputs).2).2
     = connectionsCont PortSample.inputs.
Proof.
  assert (H : contains (ownPort PortSample.inputs (20, 0) (128, 0)) PortSample.inputs
              = false) by reflexivity.
  split; [exact H|].
  exact (proj1 (connectPorts_round_trip PortSample.granting (20, 0) (128, 0)
                  PortSample.inputs H)).
Defined.

Lemma findRow_none id l k :
  Forall (fun p => p.1 <> id) l -> findRow id l k = k + Z.of_nat (length l).
Proof.
  intros H. revert k. induction H as [|p l Hp _ IH]; intros k; simpl; [lia|].
  rewrite bool_decide_eq_false_2 by exact Hp. rewrite IH. lia.
Qed.

Lemma findRow_first id l :
  forall k r name,
  l !! r = Some (id, name) ->
  (forall r' p, (r' < r)%nat -> l !! r' = Some p -> p.1 <> id) ->
  findRow id l k = k + Z.of_nat r.
Proof.
  induction l as [|p l IH]; intros k r name Hr Hfirst; [discriminate|].
  destruct r as [|r]; simpl.
  - injection Hr as ->. rewrite bool_decide_eq_true_2 by reflexivity. lia.
  - rewrite bool_decide_eq_false_2 by (apply (Hfirst 0%nat p); [lia | reflexivity]).
    rewrite (IH (k + 1) r name Hr); [lia|].
    intros r' p' Hlt Hp'. apply (Hfirst (S r') p'); [lia | exact Hp'].
Qed.

(** X18.  [emitPortChanged] announces a change for one row at most: the
    first row of the port list that carries the port.  For a port that is
    not in the list nothing is emitted, so that connecting such a port
    changes the set of connections without any [dataChanged]. *)
Theorem emitPortChanged_first_row (id : MidiClientPortId) (m : MidiPortModel) :
  (Forall (fun p => p.1 <> id) (portList m) -> emitPortChanged id m = m)
  /\ (forall r name,
        portList m !! r = Some (id, name) ->
        (forall r' p, (r' < r)%nat -> portList m !! r' = Some p -> p.1 <> id) ->
        dataChangedRows (emitPortChanged id m) = dataChangedRows m ++ [Z.of_nat r]).
Proof.
  unfold emitPortChanged. split.
  - intros H. rewrite (findRow_none id _ 0 H).
    destruct (Z.ltb_spec (0 + Z.of_nat (length (portList m)))
                         (Z.of_nat (length (portList m)))); [lia | reflexivity].
  - intros r name Hr Hfirst. rewrite (findRow_first id _ 0 r name Hr Hfirst).
    apply lookup_lt_Some in Hr.
    destruct (Z.ltb_spec (0 + Z.of_nat r) (Z.of_nat (length (portList m)))); [|lia].
    reflexivity.
Qed.

Lemma emitPortChanged_first_row_witness :
  Forall (fun p => p.1 <> (99, 9)) (portList PortSample.inputs)
  /\ emitPortChanged (99, 9) PortSample.inputs = PortSample.inputs
  /\ dataChangedRows
       (connectPorts PortSample.granting (99, 9) (128, 0) true PortSample.inputs).2 = [].
Proof.
  assert (H : Forall (fun p => p.1 <> (99, 9)) (portList PortSample.inputs))
    by (repeat constructor; discriminate).
  split; [exact H|].
  split; [exact (proj1 (emitPortChanged_first_row (99, 9) PortSample.inputs) H)|].
  reflexivity.
Defined.

Lemma portAt_lookup m row p :
  portAt m row = Some p <-> 0 <= row /\ portList m !! Z.to_nat row = Some p.
Proof.
  unfold portAt. destruct (Z.ltb_spec row 0); split.
  - discriminate.
  - intros [? _]. lia.
  - intros H'. split; [lia | exact H'].
  - intros [_ H']. exact H'.
Qed.

(** X19.  [currentConnectionsNameList] gives the names of the rows the
    model itself reports as connected, in the order of the rows: a name is
    in the list exactly if some row displays it and answers [true] for
    [isConnectedRole].  The list is never longer than the model has rows; a
    connected port that is not in the port list contributes nothing. *)
Theorem currentConnectionsNameList_rows (m : MidiPortModel) (name : string) :
  (In name (currentConnectionsNameList m)
   <-> exists row,
         data row DisplayRole m = Some (VString name)
         /\ data row isConnectedRole m = Some (VBool true))
  /\ Z.of_nat (length (currentConnectionsNameList m)) <= rowCount m
  /\ currentConnectionsNameList m
     = omap (fun p => if contains p.1 m then Some p.2 else None) (portList m).
Proof.
  unfold currentConnectionsNameList, rowCount. split; [|split].
  - rewrite List.in_map_iff. split.
    + intros ([id nm] & Hnm & Hin). simpl in Hnm. subst nm.
      apply List.filter_In in Hin as [Hin Hc]. simpl in Hc.
      apply list_elem_of_In, list_elem_of_lookup in Hin as [i Hi].
      exists (Z.of_nat i). unfold data.
      assert (Hp : portAt m (Z.of_nat i) = Some (id, name))
        by (apply portAt_lookup; rewrite Nat2Z.id; split; [lia | exact Hi]).
      rewrite Hp. simpl. rewrite Hc. split; reflexivity.
    + intros (row & Hd & Hc). unfold data in Hd, Hc.
      destruct (portAt m row) as [[id nm]|] eqn:Hp; [|discriminate].
      simpl in Hd, Hc. injection Hd as ->. injection Hc as Hc.
      apply portAt_lookup in Hp as [_ Hp].
      exists (id, name). split; [reflexivity|].
      apply List.filter_In. split; [|exact Hc].
      apply list_elem_of_In. eapply list_elem_of_lookup_2. exact Hp.
  - rewrite length_fmap.
    pose proof (List.filter_length_le (fun p => contains p.1 m) (portList m)). lia.
  - induction (portList m) as [|p l IH]; [reflexivity|].
    cbn [List.filter omap list_omap]. destruct (contains p.1 m).
    + cbn [fmap list_fmap]. f_equal. exact IH.
    + exact IH.
Qed.

Section ByName.

Variable alsa : list AlsaRequest -> AlsaRequest -> Z.

Lemma firstNamed_none name l :
  Forall (fun p => p.2 <> name) l -> firstNamed name l = None.
Proof.
  induction 1 as [|p l Hp _ IH]; simpl; [reflexivity|].
  destruct (String.eqb_spec p.2 name); [contradiction | exact IH].
Qed.

Lemma firstNamed_first name l :
  forall r id,
  l !! r = Some (id, name) ->
  (forall r' p, (r' < r)%nat -> l !! r' = Some p -> p.2 <> name) ->
  firstNamed name l = Some id.
Proof.
  induction l as [|p l IH]; intros r id Hr Hfirst; [discriminate|].
  destruct r as [|r]; simpl.
  - injection Hr as ->. simpl. rewrite String.eqb_refl. reflexivity.
  - destruct (String.eqb_spec p.2 name) as [Heq|_].
    + exfalso. apply (Hfirst 0%nat p); [lia | reflexivity | exact Heq].
    + apply (IH r id Hr). intros r' p' Hlt Hp'.
      apply (Hfirst (S r') p'); [lia | exact Hp'].
Qed.

End ByName.

(** X20.  [connectPortsByName] looks the name up in the port list.  When no
    row carries the name, both variants return [false] and leave the model
    alone, whether a connection or a disconnection was asked for; otherwise
    they act as [connectPorts] on the port of the first row with that
    name. *)
Theorem connectPortsByName_lookup
    (alsa : list AlsaRequest -> AlsaRequest -> Z)
    (name : string) (other : MidiClientPortId) (connected : bool) (m : MidiPortModel) :
  (Forall (fun p => p.2 <> name) (portList m) ->
   connectPortsBySrcName alsa name other connected m = (false, m)
   /\ connectPortsByDestName alsa other name connected m = (false, m))
  /\ (forall r id,
        portList m !! r = Some (id, name) ->
        (forall r' p, (r' < r)%nat -> portList m !! r' = Some p -> p.2 <> name) ->
        connectPortsBySrcName alsa name other connected m
        = connectPorts alsa id other connected m
        /\ connectPortsByDestName alsa other name connected m
           = connectPorts alsa other id connected m).
Proof.
  unfold connectPortsBySrcName, connectPortsByDestName. split.
  - intros H. rewrite (firstNamed_none name _ H). split; reflexivity.
  - intros r id Hr Hfirst. rewrite (firstNamed_first name _ r id Hr Hfirst).
    split; reflexivity.
Qed.

Lemma connectPortsByName_lookup_witness :
  portList PortSample.inputs !! 0%nat = Some ((20, 0), "UB99 MIDI 1"%string)
  /\ connectPortsBySrcName PortSample.granting "UB99 MIDI 1" (128, 0) true
       PortSample.inputs
     = connectPorts PortSample.granting (20, 0) (128, 0) true PortSample.inputs
  /\ Forall (fun p => p.2 <> "Synth"%string) (portList PortSample.inputs)
  /\ connectPortsBySrcName PortSample.granting "Synth" (128, 0) true PortSample.inputs
     = (false, PortSample.inputs).
Proof.
  assert (H0 : portList PortSample.inputs !! 0%nat = Some ((20, 0), "UB99 MIDI 1"%string))
    by reflexivity.
  assert (Hn : Forall (fun p => p.2 <> "Synth"%string) (portList PortSample.inputs))
    by (repeat constructor; discriminate).
  pose proof (connectPortsByName_lookup PortSample.granting "UB99 MIDI 1" (128, 0) true
                PortSample.inputs) as [_ Hfound].
  pose proof (connectPortsByName_lookup PortSample.granting "Synth" (128, 0) true
                PortSample.inputs) as [Hmissing _].
  split; [exact H0|].
  split; [apply (Hfound 0%nat (20, 0) H0); intros r' p Hlt; lia|].
  split; [exact Hn|]. exact (proj1 (Hmissing Hn)).
Defined.

(** * [MidiSender] *)

Lemma hexDigit_inj a b :
  0 <= a < 16 -> 0 <= b < 16 -> hexDigit a = hexDigit b -> a = b.
Proof.
  intros Ha Hb.
  assert (Ca : a = 0 \/ a = 1 \/ a = 2 \/ a = 3 \/ a = 4 \/ a = 5 \/ a = 6 \/ a = 7
               \/ a = 8 \/ a = 9 \/ a = 10 \/ a = 11 \/ a = 12 \/ a = 13 \/ a = 14
               \/ a = 15) by lia.
  assert (Cb : b = 0 \/ b = 1 \/ b = 2 \/ b = 3 \/ b = 4 \/ b = 5 \/ b = 6 \/ b = 7
               \/ b = 8 \/ b = 9 \/ b = 10 \/ b = 11 \/ b = 12 \/ b = 13 \/ b = 14
               \/ b = 15) by lia.
  clear Ha Hb.
  repeat (destruct Ca as [-> | Ca]); try subst a;
    repeat (destruct Cb as [-> | Cb]); try subst b;
    intros H; solve [reflexivity | discriminate H].
Qed.

Lemma byteHex_inj c d : byteHex c = byteHex d -> c = d.
Proof.
  unfold byteHex. intros H. injection H as H1 H2.
  assert (Hq : forall x, 0 <= uchar x / 16 < 16).
  { intros x. pose proof (uchar_range x). split.
    - apply Z.div_pos; lia.
    - apply Z.div_lt_upper_bound; lia. }
  apply hexDigit_inj in H1; [|apply Hq..].
  apply hexDigit_inj in H2; [|apply Z.mod_pos_bound; lia..].
  apply uchar_inj.
  rewrite (Z.div_mod (uchar c) 16), (Z.div_mod (uchar d) 16) by lia.
  rewrite H1, H2. reflexivity.
Qed.

Lemma hexString_cons c rest :
  hexString (c :: rest)
  = String (hexDigit (uchar c / 16))
      (String (hexDigit (uchar c mod 16))
         (match rest with
          | [] => EmptyString
          | _ => String " "%char (hexString rest)
          end)).
Proof.
  destruct rest; reflexivity.
Qed.

Lemma hexString_inj a : forall b, hexString a = hexString b -> a = b.
Proof.
  induction a as [|c a IH]; intros [|d b] H.
  - reflexivity.
  - rewrite hexString_cons in H. discriminate H.
  - rewrite hexString_cons in H. discriminate H.
  - rewrite !hexString_cons in H. injection H as H1 H2 Hrest.
    assert (Hcd : c = d).
    { apply byteHex_inj. unfold byteHex. rewrite H1, H2. reflexivity. }
    subst d. f_equal.
    destruct a as [|c' a], b as [|d' b]; try discriminate Hrest; [reflexivity|].
    apply IH. congruence.
Qed.

Lemma hexString_length a : String.length (hexString a) = (3 * length a - 1)%nat.
Proof.
  induction a as [|c a IH]; [reflexivity|].
  rewrite hexString_cons. destruct a as [|c' a]; [reflexivity|].
  cbn [String.length]. rewrite IH. cbn [length]. lia.
Qed.

(** X21.  The hexadecimal dump written to the log loses nothing: two byte
    arrays have the same dump only if they are the same array.  The dump of
    [n] octets, [n >= 1], has [3 n - 1] characters (two digits an octet and
    a space between two octets, none at the end), and that of no octets is
    empty. *)
Theorem hexString_lossless (a b : QByteArray) :
  (hexString a = hexString b <-> a = b)
  /\ String.length (hexString a) = (3 * length a - 1)%nat.
Proof.
  split; [|apply hexString_length].
  split; [apply hexString_inj | intros ->; reflexivity].
Qed.

(** X22.  [MidiSender::event] never reports a failure.  It returns [true]
    for every event.  A SysEx [MidiEvent] is accepted and its data handed to
    the sequencer unchanged whatever the two sequencer calls return (a
    negative result only adds a debug line), and also when the data is
    empty; the dump line is written to the console unless the data is empty,
    and to the log file if moreover the file can be opened.  Any other event
    leaves the event and the sender as they were. *)
Theorem senderEvent_always_handled
    (defaultParamName : string) (defaultOffset defaultLength : Z)
    (env : SenderEnv) (e : QEvent) (s : MidiSender) :
  let r := senderEvent defaultParamName defaultOffset defaultLength env e s in
  r.1.1 = true
  /\ match e with
     | AMidiEvent me =>
         if isMidiSysEx (evType me)
         then
           r.1.2 = AMidiEvent (accept me)
           /\ sequencerOutput r.2 = sequencerOutput s ++ [sysExData me]
           /\ console r.2
              = console s
                ++ (if QByteArray.isEmpty (sysExData me) then []
                    else [logMessage (now env) (sysExData me) defaultParamName
                            defaultOffset defaultLength])
           /\ logFile r.2
              = logFile s
                ++ (if QByteArray.isEmpty (sysExData me) || negb (logFileOpens env)
                    then []
                    else [logMessage (now env) (sysExData me) defaultParamName
                            defaultOffset defaultLength])
           /\ senderDebug r.2
              = senderDebug s
                ++ (if eventOutputResult env <? 0
                    then ["Error at snd_seq_event_output"%string] else [])
                ++ (if drainOutputResult env <? 0
                    then ["Error at snd_seq_drain_output"%string] else [])
         else r.1.2 = e /\ r.2 = s
     | OtherEvent => r.1.2 = e /\ r.2 = s
     end.
Proof.
  unfold senderEvent, hexDump. destruct e as [me|]; [|repeat split].
  destruct (isMidiSysEx (evType me)); [|repeat split].
  destruct (QByteArray.isEmpty (sysExData me)), (logFileOpens env),
    (eventOutputResult env <? 0), (drainOutputResult env <? 0);
    cbn; rewrite ?app_nil_r, <- ?app_assoc; repeat split; reflexivity.
Qed.

(** * [PreferencesDialog::createParaCCSpinBox] *)

(** X23.  The spin box made for a parameter has the range 0 to 127 and a
    value inside it: the low seven bits of the controller number mapped to
    the parameter name (so the number itself when it is between 0 and 127),
    and 0 when the name is not mapped. *)
Theorem createParaCCSpinBox_value (paraToCCMap : gmap string Z) (name : string) :
  let sb := createParaCCSpinBox paraToCCMap name in
  sbMinimum sb = 0 /\ sbMaximum sb = 127
  /\ 0 <= sbValue sb <= 127
  /\ sbObjectName sb = name
  /\ sbValue sb = match paraToCCMap !! name with
                  | Some v => v mod 128
                  | None => 0
                  end
  /\ (forall v, paraToCCMap !! name = Some v -> 0 <= v <= 127 -> sbValue sb = v).
Proof.
  unfold createParaCCSpinBox.
  assert (Hland : forall v, Z.land v 0x7F = v mod 128)
    by (intros v; change 0x7F with 0x7f; apply land_7f).
  destruct (paraToCCMap !! name) as [v|] eqn:E.
  - cbn. rewrite Hland. pose proof (Z.mod_pos_bound v 128 ltac:(lia)) as Hb.
    change (Z.min 0 127) with 0.
    assert (Hv : bound 0 127 (v mod 128) = v mod 128) by (unfold bound; lia).
    rewrite Hv.
    do 5 (split; [first [reflexivity | lia]|]).
    intros v' [= <-] Hr. apply Z.mod_small. lia.
  - cbn. change (bound (Z.min 0 127) 127 0) with 0.
    do 5 (split; [first [reflexivity | lia]|]). intros v' [=].
Qed.

Lemma createParaCCSpinBox_value_witness :
  ({[ "Gain"%string := 72 ]} : gmap string Z) !! "Gain"%string = Some 72
  /\ 0 <= 72 <= 127
  /\ sbValue (createParaCCSpinBox {[ "Gain"%string := 72 ]} "Gain") = 72.
Proof.
  assert (H : ({[ "Gain"%string := 72 ]} : gmap string Z) !! "Gain"%string = Some 72)
    by reflexivity.
  split; [exact H|]. split; [lia|].
  exact (proj2 (proj2 (proj2 (proj2 (proj2
           (createParaCCSpinBox_value {[ "Gain"%string := 72 ]} "Gain")))))
           72 H ltac:(lia)).
Defined.
